(** * libsensorimotor: the [sensorimotor] device proxy

    A shallow embedding of [src/sensorimotor.hpp]: the control law
    ([execute_controller]), the frame encoder
    ([enqueue_command_set_voltage]), the byte-wise frame parser
    ([receive_data], [receive_response]) and the statistics tracker
    ([Statistics_t::update]).

    Numbers.  A C++ [double] (and the one [float]) is modelled by a
    rational of [Q]; comparisons are the comparisons of [Q]; infinities
    and NaN are outside this model.  In the control law, the decoder and
    the statistics the quantities are real-valued and every arithmetic
    operation of the source is the corresponding exact operation.  The
    frame encoder is different: it turns a product of doubles into an
    integer with [round], and the rounding of the product decides which
    integer comes out.  Its two multiplications are therefore rounded to
    double precision ([double_mul]).  Integers are [Z]; where the source
    narrows or wraps one ([uint8_t], [int16_t], [unsigned]) the
    wrap-around is written out. *)

From Stdlib Require Import ZArith QArith Qminmax Qround Qabs Qpower Qreduction.
From Stdlib Require Import Lqa Lia List Bool.
From Stdlib Require Import Morphisms.
Import ListNotations.
Local Open Scope Q_scope.

(** ** Comparisons and the small numeric helpers of the header *)

(** [a < b] on doubles, as a boolean. *)
Definition Qltb (a b : Q) : bool := negb (Qle_bool b a).

(** [std::max(a, b)] is [(a < b) ? b : a]; [std::min(a, b)] is
    [(b < a) ? b : a]. *)
Definition std_max (a b : Q) : Q := if Qltb a b then b else a.
Definition std_min (a b : Q) : Q := if Qltb b a then b else a.

Definition pos (value : Q) : Q := std_max 0 value.
Definition neg (value : Q) : Q := std_min 0 value.

Definition posneg (value p n : Q) : Q := p * pos value + n * neg value.

(** [(word - 512) / 512.0]: the subtraction is done on [int]. *)
Definition uint_to_sc (word : Z) : Q := inject_Z (word - 512) / 512.

(** Modelled from the spec: [clip] of [common/modules.h], which is not
    part of the sources at hand.  "A generic clamp(x, bound=1.0) that
    restricts x to [−bound, +bound]". *)
Definition clip (x bound : Q) : Q :=
  if Qltb bound x then bound
  else if Qltb x (- bound) then - bound
  else x.

(** The default second argument of [clip]. *)
Definition clip_default : Q := 1.

(** ** Double-precision multiplication

    The result of an arithmetic operation on doubles is the exact result
    rounded to the nearest number with a 53-bit significand, halfway
    cases to the one whose significand is even (the default rounding
    mode of IEEE 754 binary64).  The exponent range is not modelled:
    there is no overflow and no gradual underflow.  This agrees with
    binary64 on the two products of the encoder, a double of magnitude at
    most 0.5 by an integer: such a product is far below the overflow
    threshold, and it is a multiple of the smallest subnormal, so that
    where binary64 would underflow the product is exact in both. *)

Definition pow2 (e : Z) : Q := 2 ^ e.

(** The largest [k] with [2 ^ k <= x], for [0 < x]. *)
Definition floor_log2 (x : Q) : Z :=
  let k := (Z.log2 (Qnum x) - Z.log2 (Zpos (Qden x)))%Z in
  if Qle_bool (pow2 k) x then k else (k - 1)%Z.

(** The integer nearest to [y], halfway cases to the even one. *)
Definition round_nearest_even (y : Q) : Z :=
  let f := Qfloor y in
  let r := y - inject_Z f in
  if Qltb r (1 # 2) then f
  else if Qltb (1 # 2) r then (f + 1)%Z
  else if Z.even f then f else (f + 1)%Z.

(** A positive [x] rounded to 53 significant bits: with
    [2 ^ k <= x < 2 ^ (k + 1)] the representable numbers around [x] are
    the multiples of [2 ^ (k - 52)]. *)
Definition round_53 (x : Q) : Q :=
  let e := (floor_log2 x - 52)%Z in
  inject_Z (round_nearest_even (x / pow2 e)) * pow2 e.

(** The double nearest to the rational [x]. *)
Definition to_double (x : Q) : Q :=
  let x := Qred x in
  if Qltb 0 x then round_53 x
  else if Qltb x 0 then - round_53 (- x)
  else 0.

(** [a * b] on doubles. *)
Definition double_mul (a b : Q) : Q := to_double (a * b).

(** The double written [0.3] in C++: the nearest one to 3/10, which is
    [5404319552844595 / 2^54], slightly below 3/10. *)
Definition double_0_3 : Q := 5404319552844595 # 18014398509481984.

(** ** The data of the class *)

Record interface_data : Type := mk_interface_data {
  output_voltage  : Q;
  position        : Q;
  current         : Q;
  voltage_backemf : Q;
  voltage_supply  : Q;
  temperature     : Q
}.

Definition interface_data_init : interface_data :=
  mk_interface_data 0 0 0 0 0 0.

Inductive command_state_t : Type :=
  | sync0 | sync1 | processing | completed | invalid.

Definition command_state_eqb (a b : command_state_t) : bool :=
  match a, b with
  | sync0, sync0 | sync1, sync1 | processing, processing
  | completed, completed | invalid, invalid => true
  | _, _ => false
  end.

Module Controller_t.
Inductive t : Type := none | voltage | position | csl.
End Controller_t.

(** [unsigned] is 32 bits wide. *)
Definition wrap_unsigned (n : Z) : Z := (n mod 2 ^ 32)%Z.

Record Statistics_t : Type := mk_Statistics {
  errors           : Z;
  timeouts         : Z;
  response_time_us : Z;
  avg_resp_time_us : Q;
  max_resp_time_us : Z;
  faulted          : bool
}.

Definition Statistics_init : Statistics_t :=
  mk_Statistics 0 0 0 0 0 false.

(** [Statistics_t::update].  [std::max(max_resp_time_us, time_us)] is
    [(max < time) ? time : max]. *)
Definition update (st : Statistics_t) (time_us : Z) (timeout invalid : bool)
  : Statistics_t :=
  {| errors := if invalid then wrap_unsigned (errors st + 1) else errors st;
     timeouts := if timeout then wrap_unsigned (timeouts st + 1) else timeouts st;
     response_time_us := time_us;
     avg_resp_time_us := 0.99 * avg_resp_time_us st + 0.01 * inject_Z time_us;
     max_resp_time_us :=
       if (max_resp_time_us st <? time_us)%Z then time_us
       else max_resp_time_us st;
     faulted := timeout || invalid |}.

(** Modelled from the spec: the channel of [communication_interface.hpp],
    which is not part of the sources at hand.  It holds the queue of
    inbound bytes that [read_msg] has made readable, the bytes enqueued
    for sending, and one checksum accumulator for each direction. *)
Record communication_interface : Type := mk_com {
  recv_queue    : list Z;
  recv_checksum : Z;
  send_queue    : list Z;
  send_checksum : Z
}.

Definition com_init : communication_interface := mk_com [] 0 [] 0.

Record sensorimotor : Type := mk_sensorimotor {
  motor_id        : Z;
  com             : communication_interface;
  do_request      : bool;
  is_responding   : bool;
  direction       : Z;
  data            : interface_data;
  err_int         : Q;
  z               : Q;
  target_position : Q;
  target_voltage  : Q;
  target_csl_mode : Q;
  target_csl_fb   : Q;
  limit_lo        : Q;
  limit_hi        : Q;
  Kp              : Q;
  phi_disable     : Q;
  syncstate       : command_state_t;
  statistics      : Statistics_t;
  controller      : Controller_t.t
}.

(** The constructor, with the default member initialisers. *)
Definition sensorimotor_new (id : Z) (c : communication_interface)
  : sensorimotor :=
  {| motor_id := id; com := c; do_request := true; is_responding := false;
     direction := 1; data := interface_data_init;
     err_int := 0; z := 0;
     target_position := 0; target_voltage := 0;
     target_csl_mode := 0; target_csl_fb := 1.03;
     limit_lo := - 0.8; limit_hi := 0.8; Kp := 0.8; phi_disable := 0.90;
     syncstate := sync0; statistics := Statistics_init;
     controller := Controller_t.none |}.

(** *** Assignments to single members *)

Definition with_com (c : communication_interface) (m : sensorimotor) :=
  mk_sensorimotor (motor_id m) c (do_request m) (is_responding m)
    (direction m) (data m) (err_int m) (z m) (target_position m)
    (target_voltage m) (target_csl_mode m) (target_csl_fb m) (limit_lo m)
    (limit_hi m) (Kp m) (phi_disable m) (syncstate m) (statistics m)
    (controller m).

Definition with_is_responding (b : bool) (m : sensorimotor) :=
  mk_sensorimotor (motor_id m) (com m) (do_request m) b
    (direction m) (data m) (err_int m) (z m) (target_position m)
    (target_voltage m) (target_csl_mode m) (target_csl_fb m) (limit_lo m)
    (limit_hi m) (Kp m) (phi_disable m) (syncstate m) (statistics m)
    (controller m).

Definition with_data (d : interface_data) (m : sensorimotor) :=
  mk_sensorimotor (motor_id m) (com m) (do_request m) (is_responding m)
    (direction m) d (err_int m) (z m) (target_position m)
    (target_voltage m) (target_csl_mode m) (target_csl_fb m) (limit_lo m)
    (limit_hi m) (Kp m) (phi_disable m) (syncstate m) (statistics m)
    (controller m).

Definition with_err_int (e : Q) (m : sensorimotor) :=
  mk_sensorimotor (motor_id m) (com m) (do_request m) (is_responding m)
    (direction m) (data m) e (z m) (target_position m)
    (target_voltage m) (target_csl_mode m) (target_csl_fb m) (limit_lo m)
    (limit_hi m) (Kp m) (phi_disable m) (syncstate m) (statistics m)
    (controller m).

Definition with_z (v : Q) (m : sensorimotor) :=
  mk_sensorimotor (motor_id m) (com m) (do_request m) (is_responding m)
    (direction m) (data m) (err_int m) v (target_position m)
    (target_voltage m) (target_csl_mode m) (target_csl_fb m) (limit_lo m)
    (limit_hi m) (Kp m) (phi_disable m) (syncstate m) (statistics m)
    (controller m).

Definition with_target_voltage (v : Q) (m : sensorimotor) :=
  mk_sensorimotor (motor_id m) (com m) (do_request m) (is_responding m)
    (direction m) (data m) (err_int m) (z m) (target_position m)
    v (target_csl_mode m) (target_csl_fb m) (limit_lo m)
    (limit_hi m) (Kp m) (phi_disable m) (syncstate m) (statistics m)
    (controller m).

Definition with_syncstate (s : command_state_t) (m : sensorimotor) :=
  mk_sensorimotor (motor_id m) (com m) (do_request m) (is_responding m)
    (direction m) (data m) (err_int m) (z m) (target_position m)
    (target_voltage m) (target_csl_mode m) (target_csl_fb m) (limit_lo m)
    (limit_hi m) (Kp m) (phi_disable m) s (statistics m)
    (controller m).

Definition with_statistics (st : Statistics_t) (m : sensorimotor) :=
  mk_sensorimotor (motor_id m) (com m) (do_request m) (is_responding m)
    (direction m) (data m) (err_int m) (z m) (target_position m)
    (target_voltage m) (target_csl_mode m) (target_csl_fb m) (limit_lo m)
    (limit_hi m) (Kp m) (phi_disable m) (syncstate m) st
    (controller m).

Definition with_controller (c : Controller_t.t) (m : sensorimotor) :=
  mk_sensorimotor (motor_id m) (com m) (do_request m) (is_responding m)
    (direction m) (data m) (err_int m) (z m) (target_position m)
    (target_voltage m) (target_csl_mode m) (target_csl_fb m) (limit_lo m)
    (limit_hi m) (Kp m) (phi_disable m) (syncstate m) (statistics m)
    c.

Definition with_output_voltage (v : Q) (d : interface_data) :=
  mk_interface_data v (position d) (current d) (voltage_backemf d)
    (voltage_supply d) (temperature d).

(** ** The setters and the control law *)

Definition disable (m : sensorimotor) : sensorimotor :=
  with_controller Controller_t.none m.

Definition set_controller_type (type : Controller_t.t) (m : sensorimotor) :=
  with_controller type m.

(** [target_voltage = v; data.output_voltage = v;] *)
Definition set_target_voltage (v : Q) (m : sensorimotor) : sensorimotor :=
  let m := with_target_voltage v m in
  with_data (with_output_voltage v (data m)) m.

Definition execute_controller (m : sensorimotor) : sensorimotor :=
  let phi := position (data m) in
  let m := if Qle_bool (phi_disable m) (Qabs phi) then disable m else m in
  let m :=
    match controller m with
    | Controller_t.position =>
        let pos := position (data m) in
        let err := target_position m - pos in
        let m := with_err_int (err_int m + err) m in
        let m := with_err_int (clip (err_int m) clip_default) m in
        set_target_voltage (Kp m * err) m
    | _ => with_err_int 0 m
    end in
  let mode := clip (target_csl_mode m) clip_default in
  let gi := posneg mode 2.4 16.0 in
  let gf := target_csl_fb m * pos mode in
  match controller m with
  | Controller_t.csl =>
      let m := if Qltb (limit_hi m) phi
               then with_z (std_min (z m) (gi * phi)) m else m in
      let m := if Qltb phi (limit_lo m)
               then with_z (std_max (z m) (gi * phi)) m else m in
      let u := clip (- gi * phi + z m) clip_default in
      let m := with_z (gi * phi + gf * u) m in
      set_target_voltage (0.75 * u) m
  | _ => with_z (gi * phi) m
  end.

(** The mode that the two branches of [execute_controller] test: the
    stored mode, unless the safety cutoff has just replaced it. *)
Definition cutoff (m : sensorimotor) : bool :=
  Qle_bool (phi_disable m) (Qabs (position (data m))).

Definition active_mode (m : sensorimotor) : Controller_t.t :=
  if cutoff m then Controller_t.none else controller m.

(** The gain [gi] as [execute_controller] computes it. *)
Definition code_gi (m : sensorimotor) : Q :=
  posneg (clip (target_csl_mode m) clip_default) 2.4 16.0.

(** The remaining setters. *)
Definition set_proportional (p : Q) (m : sensorimotor) :=
  mk_sensorimotor (motor_id m) (com m) (do_request m) (is_responding m)
    (direction m) (data m) (err_int m) (z m) (target_position m)
    (target_voltage m) (target_csl_mode m) (target_csl_fb m) (limit_lo m)
    (limit_hi m) p (phi_disable m) (syncstate m) (statistics m)
    (controller m).

Definition set_limits (lo hi : Q) (m : sensorimotor) :=
  mk_sensorimotor (motor_id m) (com m) (do_request m) (is_responding m)
    (direction m) (data m) (err_int m) (z m) (target_position m)
    (target_voltage m) (target_csl_mode m) (target_csl_fb m) lo
    hi (Kp m) (phi_disable m) (syncstate m) (statistics m)
    (controller m).

Definition set_target_csl_mode (v : Q) (m : sensorimotor) :=
  mk_sensorimotor (motor_id m) (com m) (do_request m) (is_responding m)
    (direction m) (data m) (err_int m) (z m) (target_position m)
    (target_voltage m) v (target_csl_fb m) (limit_lo m)
    (limit_hi m) (Kp m) (phi_disable m) (syncstate m) (statistics m)
    (controller m).

Definition set_target_csl_fb (f : Q) (m : sensorimotor) :=
  mk_sensorimotor (motor_id m) (com m) (do_request m) (is_responding m)
    (direction m) (data m) (err_int m) (z m) (target_position m)
    (target_voltage m) (target_csl_mode m) f (limit_lo m)
    (limit_hi m) (Kp m) (phi_disable m) (syncstate m) (statistics m)
    (controller m).

Definition set_target_position (p : Q) (m : sensorimotor) :=
  mk_sensorimotor (motor_id m) (com m) (do_request m) (is_responding m)
    (direction m) (data m) (err_int m) (z m) p
    (target_voltage m) (target_csl_mode m) (target_csl_fb m) (limit_lo m)
    (limit_hi m) (Kp m) (phi_disable m) (syncstate m) (statistics m)
    (controller m).

Definition set_direction (dir : Z) (m : sensorimotor) :=
  mk_sensorimotor (motor_id m) (com m) (do_request m) (is_responding m)
    dir (data m) (err_int m) (z m) (target_position m)
    (target_voltage m) (target_csl_mode m) (target_csl_fb m) (limit_lo m)
    (limit_hi m) (Kp m) (phi_disable m) (syncstate m) (statistics m)
    (controller m).

Definition set_phi_disable (phi : Q) (m : sensorimotor) :=
  mk_sensorimotor (motor_id m) (com m) (do_request m) (is_responding m)
    (direction m) (data m) (err_int m) (z m) (target_position m)
    (target_voltage m) (target_csl_mode m) (target_csl_fb m) (limit_lo m)
    (limit_hi m) (Kp m) phi (syncstate m) (statistics m)
    (controller m).

(** What the parser leaves in [data.position] after a valid frame. *)
Definition measured_position (p : Q) (m : sensorimotor) :=
  with_data
    (mk_interface_data (output_voltage (data m)) p (current (data m))
       (voltage_backemf (data m)) (voltage_supply (data m))
       (temperature (data m))) m.

(** ** The channel operations used by the class *)

(** Modelled from the spec: the checksum algorithm is owned by the
    channel ("treat as an opaque accumulator"); the class only ever resets
    it, feeds it bytes, asks for the byte to append and asks whether a
    received frame adds up.  It is kept abstract. *)
Class checksum_algorithm : Type := {
  checksum_reset : Z;
  checksum_add   : Z -> Z -> Z;
  checksum_byte  : Z -> Z;
  checksum_ok    : Z -> bool
}.

(** Modelled from the spec: a "simple additive" instance of the channel's
    checksum, used where a frame has to be evaluated: the bytes are summed
    modulo 256, the appended byte is the two's complement of the sum, and
    a received frame is accepted when everything sums to zero. *)
Definition additive_checksum : checksum_algorithm :=
  {| checksum_reset := 0%Z;
     checksum_add := fun acc b => ((acc + b) mod 256)%Z;
     checksum_byte := fun acc => ((256 - acc) mod 256)%Z;
     checksum_ok := fun acc => (acc =? 0)%Z |}.

Section Channel.
Context {CA : checksum_algorithm}.

(** Modelled from the spec: [enqueue_byte] of
    [communication_interface.hpp] appends a byte to the outgoing frame and
    feeds it to the running checksum. *)
Definition enqueue_byte (b : Z) (c : communication_interface) :=
  mk_com (recv_queue c) (recv_checksum c)
         (send_queue c ++ [b]) (checksum_add (send_checksum c) b).

(** Modelled from the spec: the sync pair opens a frame; the checksum is
    "computed over every byte after the sync pair". *)
Definition enqueue_sync_bytes (b : Z) (c : communication_interface) :=
  mk_com (recv_queue c) (recv_checksum c)
         (send_queue c ++ [b; b]) checksum_reset.

(** Modelled from the spec: [enqueue_checksum] appends the "one checksum
    byte". *)
Definition enqueue_checksum (c : communication_interface) :=
  mk_com (recv_queue c) (recv_checksum c)
         (send_queue c ++ [checksum_byte (send_checksum c)])
         (send_checksum c).

(** Modelled from the spec: [read_msg] "pulls available inbound bytes
    into a readable queue"; [incoming] is what has arrived since the
    previous call. *)
Definition read_msg (incoming : list Z) (c : communication_interface) :=
  mk_com (recv_queue c ++ incoming) (recv_checksum c)
         (send_queue c) (send_checksum c).

(** Modelled from the spec: [empty], [size], [front] and [pop] are the
    usual queue operations on the readable bytes. *)
Definition empty (c : communication_interface) : bool :=
  match recv_queue c with [] => true | _ => false end.

(** Modelled from the spec: the number of readable bytes. *)
Definition size (c : communication_interface) : nat :=
  length (recv_queue c).

(** Modelled from the spec: [front] peeks at the first readable byte. *)
Definition front (c : communication_interface) : Z := hd 0%Z (recv_queue c).

(** Modelled from the spec: [pop] drops the first readable byte. *)
Definition pop (c : communication_interface) :=
  mk_com (tl (recv_queue c)) (recv_checksum c)
         (send_queue c) (send_checksum c).

(** Modelled from the spec: [get_byte] consumes and returns the front
    byte; unlike [pop] it feeds the byte to the running checksum. *)
Definition get_byte (c : communication_interface)
  : Z * communication_interface :=
  let b := front c in
  (b, mk_com (tl (recv_queue c)) (checksum_add (recv_checksum c) b)
             (send_queue c) (send_checksum c)).

(** Modelled from the spec: "consume+return 16-bit big-endian". *)
Definition get_word (c : communication_interface)
  : Z * communication_interface :=
  let (hi, c) := get_byte c in
  let (lo, c) := get_byte c in
  (((hi * 256 + lo) mod 65536)%Z, c).

(** Modelled from the spec: [reset_checksum] restarts the accumulator of
    the receiving side. *)
Definition reset_checksum (c : communication_interface) :=
  mk_com (recv_queue c) checksum_reset (send_queue c) (send_checksum c).

(** Modelled from the spec: [is_checksum_ok] asks the channel whether
    the bytes consumed since the reset add up. *)
Definition is_checksum_ok (c : communication_interface) : bool :=
  checksum_ok (recv_checksum c).

(** ** The frame encoder *)

(** C's [round]: nearest integer, halfway cases away from zero. *)
Definition round (x : Q) : Z :=
  if Qle_bool 0 x then Qfloor (x + (1 # 2))
  else (- Qfloor (- x + (1 # 2)))%Z.

(** [static_cast<uint8_t>] of the integral double that [round] returns.
    For a value in 0..255 the result is that value.  For any other value
    the conversion is undefined in C++; the model takes the low eight
    bits there, and no property below relies on that choice: the payload
    byte is determined only where the rounded value is in range. *)
Definition to_uint8 (n : Z) : Z := (n mod 256)%Z.

(** [static_cast<int16_t>] of a [uint16_t]. *)
Definition to_int16 (w : Z) : Z :=
  let w := (w mod 65536)%Z in
  if (w <? 32768)%Z then w else (w - 65536)%Z.

Definition voltage_scale : Q := 0.012713472.
Definition current_scale : Q := 0.003225806.

Definition enqueue_command_data_request (m : sensorimotor) :=
  let c := enqueue_sync_bytes 0xFF (com m) in
  let c := enqueue_byte 0xC0 c in
  let c := enqueue_byte (motor_id m) c in
  with_com (enqueue_checksum c) m.

Definition enqueue_command_ping (m : sensorimotor) :=
  let c := enqueue_sync_bytes 0xFF (com m) in
  let c := enqueue_byte 0xE0 c in
  let c := enqueue_byte (motor_id m) c in
  with_com (enqueue_checksum c) m.

(** [voltage *= direction] and [std::abs(voltage) * 255] are products of
    doubles (the [int16_t] and the [int] are converted exactly), each
    rounded to a double before it is used; [clip], the comparison with
    [0.0], [std::abs] and [round] are exact on doubles. *)
Definition enqueue_command_set_voltage (voltage : Q) (m : sensorimotor) :=
  let voltage := clip voltage 0.5 in
  let voltage := double_mul voltage (inject_Z (direction m)) in
  let c := enqueue_sync_bytes 0xFF (com m) in
  let c := if Qle_bool 0 voltage then enqueue_byte 0xB0 c
           else enqueue_byte 0xB1 c in
  let c := enqueue_byte (motor_id m) c in
  let pwm := to_uint8 (round (double_mul (Qabs voltage) 255)) in
  let c := enqueue_byte pwm c in
  with_com (enqueue_checksum c) m.
End Channel.

(** ** The frame parser *)

Definition with_position (v : Q) (d : interface_data) :=
  mk_interface_data (output_voltage d) v (current d) (voltage_backemf d)
    (voltage_supply d) (temperature d).

Definition with_current (v : Q) (d : interface_data) :=
  mk_interface_data (output_voltage d) (position d) v (voltage_backemf d)
    (voltage_supply d) (temperature d).

Definition with_voltage_backemf (v : Q) (d : interface_data) :=
  mk_interface_data (output_voltage d) (position d) (current d) v
    (voltage_supply d) (temperature d).

Definition with_voltage_supply (v : Q) (d : interface_data) :=
  mk_interface_data (output_voltage d) (position d) (current d)
    (voltage_backemf d) v (temperature d).

Definition with_temperature (v : Q) (d : interface_data) :=
  mk_interface_data (output_voltage d) (position d) (current d)
    (voltage_backemf d) (voltage_supply d) v.

Definition is_pending (m : sensorimotor) : bool :=
  negb (command_state_eqb (syncstate m) completed)
  && negb (command_state_eqb (syncstate m) invalid).

Definition is_data_valid (m : sensorimotor) : bool :=
  negb (command_state_eqb (syncstate m) invalid).

Section Parser.
Context {CA : checksum_algorithm}.

(** The body of [case 0x80] once [com.size() > 12] holds. *)
Definition receive_state_data (m : sensorimotor) : sensorimotor :=
  let m := with_com (snd (get_byte (com m))) m in
  let (mid, c) := get_byte (com m) in
  let m := with_com c m in
  let m :=
    if (mid =? motor_id m)%Z then
      let (w, c) := get_word (com m) in
      let m := with_com c m in
      let m := with_data
        (with_position (uint_to_sc w * inject_Z (direction m)) (data m)) m in
      let (w, c) := get_word (com m) in
      let m := with_com c m in
      let m := with_data
        (with_current (inject_Z w * current_scale) (data m)) m in
      let (w, c) := get_word (com m) in
      let m := with_com c m in
      let m := with_data (with_voltage_backemf (uint_to_sc w) (data m)) m in
      let (w, c) := get_word (com m) in
      let m := with_com c m in
      let m := with_data
        (with_voltage_supply (inject_Z w * voltage_scale) (data m)) m in
      let (w, c) := get_word (com m) in
      let m := with_com c m in
      let m := with_data
        (with_temperature (inject_Z (to_int16 w) / 100) (data m)) m in
      with_com (snd (get_byte (com m))) m
    else m in
  with_syncstate
    (if (motor_id m =? mid)%Z && is_checksum_ok (com m)
     then completed else invalid) m.

(** The body of [case 0xE1] once [com.size() > 2] holds. *)
Definition receive_ping_response (m : sensorimotor) : sensorimotor :=
  let m := with_com (snd (get_byte (com m))) m in
  let (mid, c) := get_byte (com m) in
  let m := with_com c m in
  let m := with_com (snd (get_byte (com m))) m in
  let m := with_syncstate
    (if (motor_id m =? mid)%Z && is_checksum_ok (com m)
     then completed else invalid) m in
  with_is_responding (command_state_eqb (syncstate m) completed) m.

(** The [switch(syncstate)] of [receive_data]: the return code and the
    new state. *)
Definition receive_data_switch (m : sensorimotor) : bool * sensorimotor :=
  match syncstate m with
  | sync0 =>
      if empty (com m) then (false, m)
      else if (front (com m) =? 0xff)%Z then
        let m := with_syncstate sync1 m in
        let m := with_com (reset_checksum (com m)) m in
        (true, with_com (snd (get_byte (com m))) m)
      else (true, with_com (pop (com m)) m)
  | sync1 =>
      if empty (com m) then (false, m)
      else if (front (com m) =? 0xff)%Z then
        let m := with_syncstate processing m in
        (true, with_com (snd (get_byte (com m))) m)
      else
        let m := with_com (pop (com m)) m in
        (true, with_syncstate sync0 m)
  | processing =>
      if empty (com m) then (false, m)
      else
        let cmd := front (com m) in
        if (cmd =? 0x80)%Z then
          if (12 <? size (com m))%nat then (true, receive_state_data m)
          else (false, m)
        else if (cmd =? 0xE1)%Z then
          if (2 <? size (com m))%nat then (true, receive_ping_response m)
          else (false, m)
        else (false, with_syncstate invalid m)
  | invalid => (false, m)
  | completed => (false, m)
  end.

(** The bytes [incoming] become readable. *)
Definition arrive (incoming : list Z) (m : sensorimotor) : sensorimotor :=
  with_com (read_msg incoming (com m)) m.

(** One call of [receive_data]: [com.read_msg()], which finds
    [incoming], then the switch. *)
Definition receive_data (incoming : list Z) (m : sensorimotor)
  : bool * sensorimotor :=
  receive_data_switch (arrive incoming m).

(** [while(receive_data());] with nothing arriving meanwhile.  Every
    call that returns [true] removes a byte from the queue, so
    [S (size (com m))] calls are enough ([drain_exits] below). *)
Fixpoint drain (fuel : nat) (m : sensorimotor) : sensorimotor :=
  match fuel with
  | O => m
  | S fuel =>
      let (again, m) := receive_data [] m in
      if again then drain fuel m else m
  end.

Definition settle (m : sensorimotor) : sensorimotor :=
  drain (S (size (com m))) m.

(** [while(receive_data());] when [incoming] is found by the first
    call. *)
Definition while_receive_data (incoming : list Z) (m : sensorimotor) :=
  settle (arrive incoming m).

(** The loop of [receive_response].  [arrivals] lists what becomes
    readable in each round: the head before the first round, the next
    element during the first [wait_us], and so on; [wait_us] always
    returns [true]. *)
Fixpoint receive_loop (fuel : nat) (t_us timeout_us : Z)
    (arrivals : list (list Z)) (m : sensorimotor) : Z * sensorimotor :=
  let m := while_receive_data (hd [] arrivals) m in
  let t_us := wrap_unsigned (t_us + 1) in
  match fuel with
  | O => (t_us, m)
  | S fuel =>
      if (t_us <? timeout_us)%Z && is_pending m
      then receive_loop fuel t_us timeout_us (tl arrivals) m
      else (t_us, m)
  end.

Definition max_response_time_us : Z := 1000.
Definition ping_timeout_us : Z := 50.

Definition receive_response (timeout_us : Z) (arrivals : list (list Z))
    (m : sensorimotor) : Statistics_t * sensorimotor :=
  let m := with_syncstate sync0 m in
  let (t_us, m) :=
    receive_loop (Z.to_nat timeout_us) 0 timeout_us arrivals m in
  let m := with_statistics
    (update (statistics m) t_us (timeout_us <=? t_us)%Z
            (negb (is_data_valid m))) m in
  (statistics m, m).

(** Feeding the parser call by call: each element of [events] is what
    one call of [receive_data] finds, possibly nothing. *)
Definition feed (events : list (list Z)) (m : sensorimotor) : sensorimotor :=
  fold_left (fun m incoming => snd (receive_data incoming m)) events m.
End Parser.

(** A state in which a call of [receive_data] that finds no new byte
    reports "no progress" and changes nothing. *)
Definition quiescent {CA : checksum_algorithm} (m : sensorimotor) : Prop :=
  receive_data [] m = (false, m).

(** The parser is done: [completed] or [invalid]. *)
Definition terminal (m : sensorimotor) : bool := negb (is_pending m).

(** A device with id 5 on a fresh channel, as in the spec's scenarios. *)
Definition motor5 : sensorimotor := sensorimotor_new 5 com_init.

(** The frame of the scenario "data-request/response cycle", with the
    checksum byte of the additive algorithm. *)
Definition scenario_frame : list Z :=
  [0xFF; 0xFF; 0x80; 0x05; 0x02; 0x00; 0x00; 0x64; 0x02; 0x00; 0x00; 0x32;
   0x27; 0x10; 0xAC]%Z.

(** A state-data frame for device 5 carrying position word 0x0300 whose
    last byte is not the checksum (which would be 0xAB). *)
Definition corrupted_frame : list Z :=
  [0xFF; 0xFF; 0x80; 0x05; 0x03; 0x00; 0x00; 0x64; 0x02; 0x00; 0x00; 0x32;
   0x27; 0x10; 0x00]%Z.

(** The scenario frame arriving one byte per parser call, with idle
    calls in between. *)
Definition scenario_events : list (list Z) :=
  [[0xFF]; []; []; [0xFF]; [0x80]; []; [0x05]; [0x02]; [0x00]; [];
   [0x00]; [0x64]; [0x02]; [0x00]; []; []; [0x00]; [0x32]; [0x27];
   [0x10]; []; [0xAC]; []]%Z.

(** Concrete devices used to evaluate the control law. *)

(** Position mode, default gains and limits, target 0.9, measured 0. *)
Definition position_device : sensorimotor :=
  set_controller_type Controller_t.position
    (set_target_position 0.9 motor5).

(** Csl mode at full positive mode, measured position 0.85 (above
    [limit_hi], below [phi_disable]), default feedback 1.03. *)
Definition csl_device : sensorimotor :=
  set_controller_type Controller_t.csl
    (set_target_csl_mode 1 (measured_position 0.85 motor5)).

(** The same with a negative feedback gain. *)
Definition csl_device_negative_fb : sensorimotor :=
  set_target_csl_fb (- (1)) csl_device.

(** Voltage mode with the measured position beyond [phi_disable]. *)
Definition overturned_device : sensorimotor :=
  set_controller_type Controller_t.voltage
    (set_target_voltage 0.3 (measured_position 0.95 motor5)).

(** ** The claims' own formulas for the csl law

    These follow the wording of the specification (section 4.2), not the
    code; the theorems below compare them with [execute_controller]. *)

Definition csl_spec_mode (m : sensorimotor) : Q :=
  clip (target_csl_mode m) 1.

Definition csl_spec_gi (m : sensorimotor) : Q :=
  let mode := csl_spec_mode m in
  if Qle_bool 0 mode then 2.4 * mode else 16.0 * mode.

Definition csl_spec_gf (m : sensorimotor) : Q :=
  target_csl_fb m * Qmax 0 (csl_spec_mode m).

Definition csl_spec_u (m : sensorimotor) : Q :=
  let phi := position (data m) in
  let gi := csl_spec_gi m in
  let z1 := if Qltb (limit_hi m) phi then Qmin (z m) (gi * phi) else z m in
  let z2 := if Qltb phi (limit_lo m) then Qmax z1 (gi * phi) else z1 in
  clip (- gi * phi + z2) 1.

(** The specification's wording of the voltage encoding (section 4.1):
    the requested voltage clamped to [[-0.5, +0.5]], then multiplied by
    the direction, as a real number. *)
Definition spec_corrected_voltage (voltage : Q) (dir : Z) : Q :=
  Qmax (- 0.5) (Qmin 0.5 voltage) * inject_Z dir.

(** The set-voltage frame for a corrected voltage [v], payload byte
    [pwm] and checksum byte [chk]. *)
Definition set_voltage_frame (v : Q) (id pwm chk : Z) : list Z :=
  [0xFF; 0xFF; if Qle_bool 0 v then 0xB0 else 0xB1; id; pwm; chk]%Z.

(** ** The communication cycle *)

Definition toggle_request (m : sensorimotor) : sensorimotor :=
  mk_sensorimotor (motor_id m) (com m) (negb (do_request m))
    (is_responding m) (direction m) (data m) (err_int m) (z m)
    (target_position m) (target_voltage m) (target_csl_mode m)
    (target_csl_fb m) (limit_lo m) (limit_hi m) (Kp m) (phi_disable m)
    (syncstate m) (statistics m) (controller m).

Definition reset_statistics (m : sensorimotor) : sensorimotor :=
  with_statistics Statistics_init m.

(** The 16-bit word made of two bytes, most significant first, as
    [get_word] returns it. *)
Definition be_word (msb lsb : Z) : Z := ((msb * 256 + lsb) mod 65536)%Z.

Section Cycle.
Context {CA : checksum_algorithm}.

(** Modelled from the spec: [send_msg] of [communication_interface.hpp]
    ("send()" returning the bytes written).  The first component is what
    the class hands to the channel for transmission: everything enqueued.
    The model is that of a transmission that succeeds, after which the
    send queue is empty; a channel that cannot send ("transmit failure")
    is not modelled.  The properties below speak of the bytes handed
    over; none draws a conclusion from the number of bytes reported or
    from the state of the send queue afterwards. *)
Definition send_msg (c : communication_interface)
  : list Z * communication_interface :=
  (send_queue c,
   mk_com (recv_queue c) (recv_checksum c) [] (send_checksum c)).

Definition enqueue_command_toggle_led (m : sensorimotor) :=
  let c := enqueue_sync_bytes 0xFF (com m) in
  let c := enqueue_byte 0xD0 c in
  let c := enqueue_byte (motor_id m) c in
  with_com (enqueue_checksum c) m.

(** [send_command]; [stale] is what its [read_msg] finds.  The result is
    the return value of a successful transmission, the bytes handed to
    the channel and the new state. *)
Definition send_command (stale : list Z) (m : sensorimotor)
  : nat * list Z * sensorimotor :=
  let m :=
    match controller m with
    | Controller_t.none => enqueue_command_data_request m
    | _ => enqueue_command_set_voltage (target_voltage m) m
    end in
  let m := with_com (read_msg stale (com m)) m in
  let (wire, c) := send_msg (com m) in
  (length wire, wire, with_com c m).

(** [ping]: the return value, the bytes handed to the channel, the new
    state. *)
Definition ping (stale : list Z) (arrivals : list (list Z))
    (m : sensorimotor) : bool * list Z * sensorimotor :=
  let m := with_is_responding false m in
  let m := enqueue_command_ping m in
  let m := with_com (read_msg stale (com m)) m in
  let (wire, c) := send_msg (com m) in
  let m := with_com c m in
  let (_, m) := receive_response ping_timeout_us arrivals m in
  (is_responding m, wire, m).
End Cycle.

(** Everything of the object that belongs to the controller and the
    sending side: identity, configuration, targets, controller state,
    commanded voltage and the bytes enqueued for sending. *)
Definition controller_side (m : sensorimotor) :=
  (motor_id m, do_request m, direction m, controller m,
   (err_int m, z m, target_position m, target_voltage m,
    output_voltage (data m)),
   (target_csl_mode m, target_csl_fb m, limit_lo m, limit_hi m, Kp m,
    phi_disable m),
   (send_queue (com m), send_checksum (com m))).

(** The statistics after a sequence of cycles, each given by its elapsed
    time and its two flags, starting from the zeroed record. *)
Definition statistics_after (cycles : list (Z * bool * bool)) : Statistics_t :=
  fold_left (fun st c => update st (fst (fst c)) (snd (fst c)) (snd c))
            cycles Statistics_init.

(** * Properties *)

(** ** Arithmetic of the helpers *)

Lemma Qltb_true (a b : Q) : Qltb a b = true <-> a < b.
Proof.
  unfold Qltb. rewrite negb_true_iff. split; intro H.
  - apply Qnot_le_lt. intro Hle. apply Qle_bool_iff in Hle. congruence.
  - destruct (Qle_bool b a) eqn:E; trivial.
    apply Qle_bool_iff in E. exfalso. exact (Qlt_not_le _ _ H E).
Qed.

Lemma Qltb_false (a b : Q) : Qltb a b = false <-> b <= a.
Proof.
  unfold Qltb. rewrite negb_false_iff. apply Qle_bool_iff.
Qed.

Lemma Qle_bool_false (a b : Q) : Qle_bool a b = false <-> b < a.
Proof.
  rewrite <- Qltb_true. unfold Qltb. now rewrite negb_true_iff.
Qed.


Lemma Qltb_comp (a a' b b' : Q) :
  a == a' -> b == b' -> Qltb a b = Qltb a' b'.
Proof.
  intros Ha Hb. unfold Qltb. f_equal.
  destruct (Qle_bool b a) eqn:E1, (Qle_bool b' a') eqn:E2; trivial.
  - apply Qle_bool_iff in E1. rewrite Ha, Hb in E1.
    apply Qle_bool_iff in E1. congruence.
  - apply Qle_bool_iff in E2. rewrite <- Ha, <- Hb in E2.
    apply Qle_bool_iff in E2. congruence.
Qed.

Lemma std_max_Qmax (a b : Q) : std_max a b == Qmax a b.
Proof.
  unfold std_max. destruct (Qltb a b) eqn:E.
  - apply Qltb_true in E. symmetry. apply Q.max_r. lra.
  - apply Qltb_false in E. symmetry. apply Q.max_l. exact E.
Qed.

Lemma std_min_Qmin (a b : Q) : std_min a b == Qmin a b.
Proof.
  unfold std_min. destruct (Qltb b a) eqn:E.
  - apply Qltb_true in E. symmetry. apply Q.min_r. lra.
  - apply Qltb_false in E. symmetry. apply Q.min_l. exact E.
Qed.

#[global] Instance std_max_comp : Proper (Qeq ==> Qeq ==> Qeq) std_max.
Proof.
  intros a a' Ha b b' Hb. rewrite !std_max_Qmax. now rewrite Ha, Hb.
Qed.

#[global] Instance std_min_comp : Proper (Qeq ==> Qeq ==> Qeq) std_min.
Proof.
  intros a a' Ha b b' Hb. rewrite !std_min_Qmin. now rewrite Ha, Hb.
Qed.

#[global] Instance clip_comp : Proper (Qeq ==> Qeq ==> Qeq) clip.
Proof.
  intros x x' Hx b b' Hb. unfold clip.
  rewrite (Qltb_comp b b' x x' Hb Hx).
  assert (Hn : - b == - b') by now rewrite Hb.
  rewrite (Qltb_comp x x' (- b) (- b') Hx Hn).
  destruct (Qltb b' x'); [exact Hb|].
  destruct (Qltb x' (- b')); [exact Hn | exact Hx].
Qed.

(** [clip] does restrict its argument to [[-bound, bound]]. *)
Lemma clip_range (x bound : Q) :
  0 <= bound -> - bound <= clip x bound <= bound.
Proof.
  intro Hb. unfold clip.
  destruct (Qltb bound x) eqn:E1.
  - lra.
  - apply Qltb_false in E1. destruct (Qltb x (- bound)) eqn:E2.
    + lra.
    + apply Qltb_false in E2. lra.
Qed.

Lemma clip_inside (x bound : Q) :
  - bound <= x <= bound -> clip x bound = x.
Proof.
  intros [Hlo Hhi]. unfold clip.
  destruct (Qltb bound x) eqn:E1.
  - apply Qltb_true in E1. lra.
  - destruct (Qltb x (- bound)) eqn:E2; trivial.
    apply Qltb_true in E2. lra.
Qed.

Lemma clip_nonpos (x bound : Q) : 0 <= bound -> x <= 0 -> clip x bound <= 0.
Proof.
  intros Hb Hx. unfold clip.
  destruct (Qltb bound x) eqn:E1.
  - apply Qltb_true in E1. lra.
  - destruct (Qltb x (- bound)); lra.
Qed.

Lemma pos_nonneg (value : Q) : 0 <= pos value.
Proof.
  unfold pos, std_max. destruct (Qltb 0 value) eqn:E.
  - apply Qltb_true in E. lra.
  - lra.
Qed.

(** The asymmetric gain: [posneg mode 2.4 16.0] is [2.4 * mode] for a
    non-negative [mode] and [16.0 * mode] for a negative one. *)
Lemma posneg_gain (mode : Q) :
  posneg mode 2.4 16.0 == if Qle_bool 0 mode then 2.4 * mode else 16.0 * mode.
Proof.
  unfold posneg, pos, neg, std_max, std_min.
  destruct (Qle_bool 0 mode) eqn:E.
  - apply Qle_bool_iff in E.
    destruct (Qltb 0 mode) eqn:E1, (Qltb mode 0) eqn:E2;
      try apply Qltb_true in E1; try apply Qltb_true in E2;
      try apply Qltb_false in E1; try apply Qltb_false in E2; lra.
  - apply Qle_bool_false in E.
    destruct (Qltb 0 mode) eqn:E1, (Qltb mode 0) eqn:E2;
      try apply Qltb_true in E1; try apply Qltb_true in E2;
      try apply Qltb_false in E1; try apply Qltb_false in E2; lra.
Qed.

(** ** The control law, case by case *)

Lemma cutoff_true (m : sensorimotor) :
  cutoff m = true <-> phi_disable m <= Qabs (position (data m)).
Proof. apply Qle_bool_iff. Qed.

Lemma cutoff_false (m : sensorimotor) :
  cutoff m = false <-> Qabs (position (data m)) < phi_disable m.
Proof. apply Qle_bool_false. Qed.

Lemma code_gi_spec (m : sensorimotor) : code_gi m == csl_spec_gi m.
Proof. apply posneg_gain. Qed.

Ltac exec_unfold :=
  unfold execute_controller, cutoff, active_mode, code_gi in *; cbv zeta.

(** With the cutoff active both [else] branches run on a disabled
    device. *)
Lemma execute_controller_cut (m : sensorimotor) :
  cutoff m = true ->
  execute_controller m =
  with_z (code_gi m * position (data m)) (with_err_int 0 (disable m)).
Proof.
  intro H. exec_unfold. rewrite H. reflexivity.
Qed.

Lemma execute_controller_position (m : sensorimotor) :
  cutoff m = false -> controller m = Controller_t.position ->
  let err := target_position m - position (data m) in
  execute_controller m =
  with_z (code_gi m * position (data m))
    (set_target_voltage (Kp m * err)
       (with_err_int (clip (err_int m + err) clip_default) m)).
Proof.
  intros H Hc. exec_unfold. rewrite H, Hc. cbn. rewrite Hc. reflexivity.
Qed.

Lemma execute_controller_csl (m : sensorimotor) :
  cutoff m = false -> controller m = Controller_t.csl ->
  let phi := position (data m) in
  let gi := code_gi m in
  let gf := target_csl_fb m * pos (clip (target_csl_mode m) clip_default) in
  let z1 := if Qltb (limit_hi m) phi then std_min (z m) (gi * phi) else z m in
  let z2 := if Qltb phi (limit_lo m) then std_max z1 (gi * phi) else z1 in
  let u := clip (- gi * phi + z2) clip_default in
  execute_controller m =
  set_target_voltage (0.75 * u) (with_z (gi * phi + gf * u) (with_err_int 0 m)).
Proof.
  intros H Hc. exec_unfold. rewrite H, Hc. cbn. rewrite Hc.
  destruct (Qltb (limit_hi m) (position (data m))); cbn;
    destruct (Qltb (position (data m)) (limit_lo m)); reflexivity.
Qed.

Lemma execute_controller_other (m : sensorimotor) :
  cutoff m = false ->
  controller m <> Controller_t.position -> controller m <> Controller_t.csl ->
  execute_controller m =
  with_z (code_gi m * position (data m)) (with_err_int 0 m).
Proof.
  intros H Hp Hc. exec_unfold. rewrite H.
  destruct (controller m) eqn:E; try congruence; cbn; rewrite E; reflexivity.
Qed.

(** [execute_controller] writes no member but the mode, the two
    controller states and the voltage target. *)
Lemma execute_controller_frame (m : sensorimotor) :
  let m' := execute_controller m in
  position (data m') = position (data m) /\
  phi_disable m' = phi_disable m /\
  limit_lo m' = limit_lo m /\ limit_hi m' = limit_hi m /\
  target_csl_mode m' = target_csl_mode m /\
  target_csl_fb m' = target_csl_fb m /\
  target_position m' = target_position m /\ Kp m' = Kp m.
Proof.
  destruct (cutoff m) eqn:Hcut.
  - cbv zeta. rewrite execute_controller_cut by assumption.
    cbn. repeat split.
  - destruct (controller m) eqn:Hc; cbv zeta.
    + rewrite execute_controller_other by congruence. cbn. repeat split.
    + rewrite execute_controller_other by congruence. cbn. repeat split.
    + rewrite execute_controller_position by assumption. cbn. repeat split.
    + rewrite execute_controller_csl by assumption. cbn. repeat split.
Qed.

(** The mode only ever changes to [none]. *)
Lemma execute_controller_mode (m : sensorimotor) :
  controller (execute_controller m) = active_mode m.
Proof.
  unfold active_mode. destruct (cutoff m) eqn:Hcut.
  - rewrite execute_controller_cut by assumption. reflexivity.
  - destruct (controller m) eqn:Hc.
    + rewrite execute_controller_other by congruence. exact Hc.
    + rewrite execute_controller_other by congruence. exact Hc.
    + rewrite execute_controller_position by assumption. exact Hc.
    + rewrite execute_controller_csl by assumption. exact Hc.
Qed.

Lemma execute_controller_keeps_none (m : sensorimotor) :
  controller m = Controller_t.none ->
  controller (execute_controller m) = Controller_t.none.
Proof.
  intro H. rewrite execute_controller_mode. unfold active_mode.
  now destruct (cutoff m).
Qed.

(** A branch is not taken when the stored mode is another one or the
    cutoff fires. *)
Lemma not_taken_inactive (m : sensorimotor) (mode : Controller_t.t) :
  mode <> Controller_t.none ->
  controller m <> mode \/ phi_disable m <= Qabs (position (data m)) ->
  active_mode m <> mode.
Proof.
  intros Hn [H | H]; unfold active_mode.
  - destruct (cutoff m); congruence.
  - apply cutoff_true in H. rewrite H. congruence.
Qed.

Lemma active_mode_not_position (m : sensorimotor) :
  active_mode m <> Controller_t.position ->
  err_int (execute_controller m) = 0.
Proof.
  unfold active_mode. destruct (cutoff m) eqn:Hcut; intro H.
  - rewrite execute_controller_cut by assumption. reflexivity.
  - destruct (controller m) eqn:Hc; try congruence.
    + rewrite execute_controller_other by congruence. reflexivity.
    + rewrite execute_controller_other by congruence. reflexivity.
    + rewrite execute_controller_csl by assumption. reflexivity.
Qed.

(** C2, as amended.  In position mode below the cutoff the commanded
    [output_voltage] is [Kp * (target_position - position)]; the integral
    accumulator is incremented by the error and then clamped by [clip]
    with its default bound, that is to [[-1, 1]] (not to
    [[limit_lo, limit_hi]]); the accumulator has no influence on the
    output; and whenever the position branch is not taken the accumulator
    is reset to 0. *)
Theorem position_control_law (m : sensorimotor) :
  (controller m = Controller_t.position ->
   Qabs (position (data m)) < phi_disable m ->
   let err := target_position m - position (data m) in
   output_voltage (data (execute_controller m)) = Kp m * err /\
   err_int (execute_controller m) = clip (err_int m + err) 1 /\
   - (1) <= err_int (execute_controller m) <= 1 /\
   forall e : Q,
     output_voltage (data (execute_controller (with_err_int e m))) =
     output_voltage (data (execute_controller m)))
  /\
  (controller m <> Controller_t.position \/
   phi_disable m <= Qabs (position (data m)) ->
   err_int (execute_controller m) = 0).
Proof.
  split.
  - intros Hc Hphi err. apply cutoff_false in Hphi.
    rewrite execute_controller_position by assumption.
    cbn. repeat split.
    + apply (clip_range _ 1). lra.
    + apply (clip_range _ 1). lra.
    + intro e. rewrite execute_controller_position by assumption.
      reflexivity.
  - intro H. apply active_mode_not_position.
    apply not_taken_inactive; [discriminate | exact H].
Qed.

(** The amended C2 at the default device in position mode with target
    0.9, and at the fresh device (mode [none]). *)
Lemma position_control_law_witness :
  output_voltage (data (execute_controller position_device)) = 0.8 * (0.9 - 0)
  /\ err_int (execute_controller motor5) = 0.
Proof.
  split.
  - apply (proj1 (position_control_law position_device)).
    + reflexivity.
    + reflexivity.
  - apply (proj2 (position_control_law motor5)). left. discriminate.
Defined.

(** C2 as stated fails: with the default limits [-0.8, 0.8] one step in
    position mode from accumulator 0 with error 0.9 leaves the
    accumulator at 0.9, above [limit_hi]. *)
Lemma position_accumulator_exceeds_limit_hi :
  controller position_device = Controller_t.position /\
  Qabs (position (data position_device)) < phi_disable position_device /\
  err_int (execute_controller position_device) == 0.9 /\
  ~ (limit_lo position_device <= err_int (execute_controller position_device)
     <= limit_hi position_device).
Proof.
  repeat split.
  intros [_ H]. vm_compute in H. apply H. reflexivity.
Qed.

(** ** The safety cutoff *)

(** Whatever is measured before each further invocation, a disabled
    controller stays disabled. *)
Lemma none_is_absorbing (ds : list interface_data) (m : sensorimotor) :
  controller m = Controller_t.none ->
  controller
    (fold_left (fun k d => execute_controller (with_data d k)) ds m)
  = Controller_t.none.
Proof.
  revert m. induction ds as [|d ds IH]; intros m H; cbn [fold_left].
  - exact H.
  - apply IH. apply execute_controller_keeps_none. exact H.
Qed.

(** C4.  When [|position| >= phi_disable], [execute_controller] leaves
    the mode at [none] whatever it was before; the disabling happens
    before the branches, so neither control law runs (the voltage target
    is untouched, the accumulator is reset); and the mode is [none] after
    every later invocation, whatever data is measured in between: no
    branch of the control law re-enables it. *)
Theorem safety_cutoff_forces_none (m : sensorimotor) :
  phi_disable m <= Qabs (position (data m)) ->
  let m' := execute_controller m in
  controller m' = Controller_t.none /\
  target_voltage m' = target_voltage m /\
  output_voltage (data m') = output_voltage (data m) /\
  err_int m' = 0 /\
  (forall n : nat,
     controller (Nat.iter n execute_controller m') = Controller_t.none) /\
  (forall ds : list interface_data,
     controller
       (fold_left (fun k d => execute_controller (with_data d k)) ds m')
     = Controller_t.none).
Proof.
  intros H m'. apply cutoff_true in H.
  assert (Hnone : controller m' = Controller_t.none).
  { unfold m'. rewrite execute_controller_cut by assumption. reflexivity. }
  split; [exact Hnone|].
  unfold m' in *. rewrite execute_controller_cut in * by assumption.
  repeat split.
  - induction n as [|n IH].
    + reflexivity.
    + change (Nat.iter (S n) execute_controller ?k)
        with (execute_controller (Nat.iter n execute_controller k)).
      apply execute_controller_keeps_none. exact IH.
  - intro ds. apply none_is_absorbing. reflexivity.
Qed.

(** C4 at a device in voltage mode whose position reads 0.95. *)
Lemma safety_cutoff_forces_none_witness :
  controller overturned_device = Controller_t.voltage /\
  controller (execute_controller overturned_device) = Controller_t.none /\
  controller (Nat.iter 3 execute_controller
                (execute_controller overturned_device)) = Controller_t.none.
Proof.
  assert (H : phi_disable overturned_device
              <= Qabs (position (data overturned_device))).
  { vm_compute. discriminate. }
  pose proof (safety_cutoff_forces_none overturned_device H) as T.
  cbv zeta in T. destruct T as (T1 & _ & _ & _ & T5 & _).
  split; [reflexivity|]. split; [exact T1 | exact (T5 3%nat)].
Defined.

(** ** The csl law *)

Lemma pos_Qmax (x : Q) : pos x == Qmax 0 x.
Proof. apply std_max_Qmax. Qed.

(** The [u] of the code agrees with the [u] of the specification. *)
Lemma code_u_spec (m : sensorimotor) :
  let phi := position (data m) in
  let gi := code_gi m in
  let z1 := if Qltb (limit_hi m) phi then std_min (z m) (gi * phi) else z m in
  let z2 := if Qltb phi (limit_lo m) then std_max z1 (gi * phi) else z1 in
  clip (- gi * phi + z2) clip_default == csl_spec_u m.
Proof.
  cbv zeta. unfold csl_spec_u. cbv zeta.
  pose proof (code_gi_spec m) as Hg.
  apply clip_comp; [|reflexivity].
  apply Qplus_comp; [now rewrite Hg|].
  destruct (Qltb (limit_hi m) (position (data m)));
    destruct (Qltb (position (data m)) (limit_lo m));
    rewrite ?std_max_Qmax, ?std_min_Qmin, ?Hg; reflexivity.
Qed.

Lemma active_mode_not_csl (m : sensorimotor) :
  active_mode m <> Controller_t.csl ->
  z (execute_controller m) = code_gi m * position (data m).
Proof.
  unfold active_mode. destruct (cutoff m) eqn:Hcut; intro H.
  - rewrite execute_controller_cut by assumption. reflexivity.
  - destruct (controller m) eqn:Hc; try congruence.
    + rewrite execute_controller_other by congruence. reflexivity.
    + rewrite execute_controller_other by congruence. reflexivity.
    + rewrite execute_controller_position by assumption. reflexivity.
Qed.

(** C5.  In csl mode below the cutoff, with [mode], [gi], [gf] and [u] as
    the specification words them ([csl_spec_gi], [csl_spec_gf],
    [csl_spec_u]: [z] clamped from above by [gi * position] when
    [position > limit_hi], then from below when [position < limit_lo],
    [u = clip (- gi * position + z)] with bound 1), the new [z] is
    [gi * position + gf * u] and the commanded [output_voltage] is
    [0.75 * u].  Whenever the csl branch is not taken, [z] is reset to
    [gi * position]. *)
Theorem csl_control_law (m : sensorimotor) :
  (controller m = Controller_t.csl ->
   Qabs (position (data m)) < phi_disable m ->
   z (execute_controller m)
     == csl_spec_gi m * position (data m) + csl_spec_gf m * csl_spec_u m /\
   output_voltage (data (execute_controller m)) == 0.75 * csl_spec_u m)
  /\
  (controller m <> Controller_t.csl \/
   phi_disable m <= Qabs (position (data m)) ->
   z (execute_controller m) == csl_spec_gi m * position (data m)).
Proof.
  split.
  - intros Hc Hphi. apply cutoff_false in Hphi.
    rewrite execute_controller_csl by assumption. cbn.
    pose proof (code_u_spec m) as Hu. cbv zeta in Hu.
    rewrite Hu, (code_gi_spec m). unfold csl_spec_gf, csl_spec_mode.
    rewrite pos_Qmax. unfold clip_default. split; reflexivity.
  - intro H. rewrite active_mode_not_csl
      by (apply not_taken_inactive; [discriminate | exact H]).
    now rewrite (code_gi_spec m).
Qed.

(** C5 at the csl device (position 0.85, mode 1, feedback 1.03, z = 0):
    [gi = 2.4], [u = -1], so [z] becomes [2.04 - 1.03] and the output
    [-0.75]; and at the fresh device, where [z] is reset to [gi * 0]. *)
Lemma csl_control_law_witness :
  z (execute_controller csl_device) == 1.01 /\
  output_voltage (data (execute_controller csl_device)) == - 0.75 /\
  z (execute_controller motor5) == 0.
Proof.
  destruct (proj1 (csl_control_law csl_device)) as [Hz Hu].
  - reflexivity.
  - reflexivity.
  - pose proof (proj2 (csl_control_law motor5)) as H0.
    split; [|split].
    + rewrite Hz. reflexivity.
    + rewrite Hu. reflexivity.
    + rewrite H0 by (left; discriminate). reflexivity.
Defined.

(** ** The clamp of [z] above [limit_hi] *)

Lemma std_min_le_r (a b : Q) : std_min a b <= b.
Proof.
  unfold std_min. destruct (Qltb b a) eqn:E.
  - lra.
  - apply Qltb_false in E. exact E.
Qed.

Lemma std_max_le (a b c : Q) : a <= c -> b <= c -> std_max a b <= c.
Proof.
  intros Ha Hb. unfold std_max. now destruct (Qltb a b).
Qed.

Lemma nonneg_times_nonpos (a u : Q) : 0 <= a -> u <= 0 -> a * u <= 0.
Proof.
  intros Ha Hu.
  assert (H : 0 <= a * - u) by (apply Qmult_le_0_compat; lra).
  lra.
Qed.

(** One invocation of the csl branch above [limit_hi] with a
    non-negative feedback gain. *)
Lemma csl_step_bounded (m : sensorimotor) :
  controller m = Controller_t.csl ->
  cutoff m = false ->
  limit_hi m < position (data m) ->
  0 <= target_csl_fb m ->
  z (execute_controller m) <= code_gi m * position (data m).
Proof.
  intros Hc Hcut Hhi Hfb.
  rewrite execute_controller_csl by assumption. cbn.
  apply Qltb_true in Hhi. rewrite Hhi.
  set (g := code_gi m * position (data m)).
  set (z2 := if Qltb _ _ then _ else _).
  assert (Hz2 : z2 <= g).
  { unfold z2. destruct (Qltb (position (data m)) (limit_lo m)).
    - apply std_max_le; [apply std_min_le_r | lra].
    - apply std_min_le_r. }
  set (u := clip (_ + _) clip_default).
  assert (Hu : u <= 0).
  { unfold u. apply clip_nonpos; [unfold clip_default; lra|].
    assert (E : - code_gi m * position (data m) == - g)
      by (unfold g; ring).
    rewrite E. lra. }
  assert (Hgf : 0 <= target_csl_fb m * pos (clip (target_csl_mode m) clip_default)).
  { apply Qmult_le_0_compat; [exact Hfb | apply pos_nonneg]. }
  pose proof (nonneg_times_nonpos _ _ Hgf Hu). lra.
Qed.

(** C6, as amended.  With a non-negative feedback gain
    [target_csl_fb] (its default is 1.03), the position held fixed
    strictly above [limit_hi] and below the cutoff, and the controller in
    csl mode: after every invocation the mode is still csl and
    [z <= gi * position], with [gi] as the specification words it. *)
Theorem csl_clamp_boundary (m : sensorimotor) :
  controller m = Controller_t.csl ->
  Qabs (position (data m)) < phi_disable m ->
  limit_hi m < position (data m) ->
  0 <= target_csl_fb m ->
  forall n : nat,
    let m' := Nat.iter (S n) execute_controller m in
    controller m' = Controller_t.csl /\
    position (data m') = position (data m) /\
    z m' <= csl_spec_gi m * position (data m).
Proof.
  intros Hc Hphi Hhi Hfb n. apply cutoff_false in Hphi.
  assert (Inv : forall k,
    let mk := Nat.iter k execute_controller m in
    controller mk = Controller_t.csl /\ cutoff mk = false /\
    position (data mk) = position (data m) /\ limit_hi mk = limit_hi m /\
    target_csl_fb mk = target_csl_fb m /\ code_gi mk = code_gi m).
  { induction k as [|k IH]; cbv zeta in *;
      [| change (Nat.iter (S k) execute_controller m)
           with (execute_controller (Nat.iter k execute_controller m)) ].
    - repeat split; assumption.
    - destruct IH as (Ic & Icut & Ipos & Ihi & Ifb & Igi).
      set (mk := Nat.iter k execute_controller m) in *.
      pose proof (execute_controller_frame mk) as F. cbv zeta in F.
      destruct F as (Fp & Fphi & Flo & Fhi & Fmode & Ffb & _).
      split; [|split; [|split; [|split; [|split]]]].
      + rewrite execute_controller_mode. unfold active_mode.
        now rewrite Icut.
      + unfold cutoff in *. now rewrite Fp, Fphi.
      + congruence.
      + congruence.
      + congruence.
      + unfold code_gi in *. now rewrite Fmode. }
  cbv zeta.
  change (Nat.iter (S n) execute_controller m)
    with (execute_controller (Nat.iter n execute_controller m)).
  destruct (Inv n) as (Ic & Icut & Ipos & Ihi & Ifb & Igi). cbv zeta in *.
  set (mn := Nat.iter n execute_controller m) in *.
  destruct (Inv (S n)) as (Jc & _ & Jpos & _).
  change (Nat.iter (S n) execute_controller m)
    with (execute_controller (Nat.iter n execute_controller m)) in Jc, Jpos.
  fold mn in Jc, Jpos.
  split; [exact Jc|]. split; [exact Jpos|].
  rewrite <- (code_gi_spec m), <- Igi, <- Ipos.
  apply csl_step_bounded; try assumption.
  - now rewrite Ihi, Ipos.
  - now rewrite Ifb.
Qed.

(** The amended C6 at the csl device, after one and after four
    invocations. *)
Lemma csl_clamp_boundary_witness :
  z (execute_controller csl_device) <= 2.4 * 0.85 /\
  z (Nat.iter 4 execute_controller csl_device) <= 2.4 * 0.85.
Proof.
  assert (T : forall n : nat,
    z (Nat.iter (S n) execute_controller csl_device)
    <= csl_spec_gi csl_device * position (data csl_device)).
  { intro n.
    apply (csl_clamp_boundary csl_device); [reflexivity | reflexivity | reflexivity | discriminate]. }
  split; [pose proof (T 0%nat) as H | pose proof (T 3%nat) as H];
    vm_compute in H |- *; exact H.
Defined.

(** C6 as stated fails: with the feedback gain set to -1 (mode 1,
    position 0.85, [z = 0]) one invocation of the csl branch gives
    [u = -1] and [z = 2.04 + 1 = 3.04], above [gi * position = 2.04]. *)
Lemma csl_clamp_fails_for_negative_feedback :
  controller csl_device_negative_fb = Controller_t.csl /\
  limit_hi csl_device_negative_fb < position (data csl_device_negative_fb) /\
  Qabs (position (data csl_device_negative_fb))
    < phi_disable csl_device_negative_fb /\
  controller (execute_controller csl_device_negative_fb) = Controller_t.csl /\
  z (execute_controller csl_device_negative_fb) == 3.04 /\
  ~ (z (execute_controller csl_device_negative_fb)
     <= csl_spec_gi csl_device_negative_fb
        * position (data csl_device_negative_fb)).
Proof.
  repeat split. intro H. vm_compute in H. apply H. reflexivity.
Qed.

(** ** The voltage target *)

(** C9.  Below the cutoff, an invocation in position mode replaces the
    stored [target_voltage] by [Kp * error] and an invocation in csl mode
    replaces it by [0.75 * u]: the write goes through
    [set_target_voltage].  In both modes [output_voltage] equals
    [target_voltage] afterwards, and the result does not depend on what a
    caller had stored with [set_target_voltage] before. *)
Theorem controller_overwrites_target_voltage (m : sensorimotor) :
  Qabs (position (data m)) < phi_disable m ->
  (controller m = Controller_t.position ->
   target_voltage (execute_controller m)
   = Kp m * (target_position m - position (data m)))
  /\
  (controller m = Controller_t.csl ->
   target_voltage (execute_controller m) == 0.75 * csl_spec_u m)
  /\
  (controller m = Controller_t.position \/
   controller m = Controller_t.csl ->
   output_voltage (data (execute_controller m))
   = target_voltage (execute_controller m) /\
   forall v : Q,
     target_voltage (execute_controller (set_target_voltage v m))
     = target_voltage (execute_controller m)).
Proof.
  intro Hcut. apply cutoff_false in Hcut.
  split; [|split].
  - intro Hc. rewrite execute_controller_position by assumption.
    reflexivity.
  - intro Hc. rewrite execute_controller_csl by assumption. cbn.
    pose proof (code_u_spec m) as Hu. cbv zeta in Hu. now rewrite Hu.
  - intros [Hc|Hc].
    + rewrite execute_controller_position by assumption.
      split; [reflexivity|]. intro v.
      rewrite execute_controller_position by assumption. reflexivity.
    + rewrite execute_controller_csl by assumption.
      split; [reflexivity|]. intro v.
      rewrite execute_controller_csl by assumption. reflexivity.
Qed.

(** C9 at the position device after a caller stored 0.3: the stored
    value is replaced by [0.8 * (0.9 - 0)]. *)
Lemma controller_overwrites_target_voltage_witness :
  target_voltage (set_target_voltage 0.3 position_device) = 0.3 /\
  target_voltage
    (execute_controller (set_target_voltage 0.3 position_device))
  = 0.8 * (0.9 - 0) /\
  output_voltage
    (data (execute_controller (set_target_voltage 0.3 position_device)))
  = 0.8 * (0.9 - 0).
Proof.
  assert (H : Qabs (position (data (set_target_voltage 0.3 position_device)))
              < phi_disable (set_target_voltage 0.3 position_device))
    by reflexivity.
  pose proof (controller_overwrites_target_voltage
                (set_target_voltage 0.3 position_device) H) as (T1 & _ & T3).
  split; [reflexivity|].
  destruct T3 as [T3 _]; [left; reflexivity|].
  split.
  - apply T1. reflexivity.
  - rewrite T3. apply T1. reflexivity.
Defined.

(** ** Double-precision rounding *)

(** Powers of two. *)

Lemma pow2_pos (e : Z) : 0 < pow2 e.
Proof. apply Qpower_0_lt. reflexivity. Qed.

Lemma pow2_le (a b : Z) : (a <= b)%Z -> pow2 a <= pow2 b.
Proof. intro H. apply Qpower_le_compat_l; [exact H | discriminate]. Qed.

Lemma pow2_le_inv (a b : Z) : pow2 a <= pow2 b -> (a <= b)%Z.
Proof. intro H. eapply Qpower_le_compat_l_inv; [exact H | reflexivity]. Qed.

Lemma pow2_plus (a b : Z) : pow2 (a + b) == pow2 a * pow2 b.
Proof. apply Qpower_plus. discriminate. Qed.

Lemma pow2_nonneg_Z (n : Z) : (0 <= n)%Z -> pow2 n == inject_Z (2 ^ n).
Proof. intro H. unfold pow2. now rewrite (Zpower_Qpower 2 n H). Qed.

(** [floor_log2 x] is the floor of the binary logarithm of a positive
    [x]: [2 ^ k <= x < 2 ^ (k + 1)]. *)

Lemma floor_log2_low (x : Q) : 0 < x -> pow2 (floor_log2 x) <= x.
Proof.
  intro Hx. unfold floor_log2.
  destruct (Qle_bool _ x) eqn:E; [now apply Qle_bool_iff in E|].
  clear E. destruct x as [a b]. cbn [Qnum Qden].
  assert (Ha : (0 < a)%Z).
  { unfold Qlt in Hx. cbn in Hx. lia. }
  set (la := Z.log2 a). set (lb := Z.log2 (Z.pos b)).
  assert (Hla : (2 ^ la <= a)%Z) by (apply Z.log2_spec; exact Ha).
  assert (Hlb : (Z.pos b < 2 ^ (lb + 1))%Z).
  { unfold lb. replace (Z.log2 (Z.pos b) + 1)%Z with (Z.succ (Z.log2 (Z.pos b))) by lia.
    apply Z.log2_spec. lia. }
  assert (H0a : (0 <= la)%Z) by apply Z.log2_nonneg.
  assert (H0b : (0 <= lb)%Z) by apply Z.log2_nonneg.
  replace (la - lb - 1)%Z with (la - (lb + 1))%Z by lia.
  unfold pow2. rewrite Qpower_minus by discriminate.
  fold (pow2 la). fold (pow2 (lb + 1)).
  rewrite (pow2_nonneg_Z la), (pow2_nonneg_Z (lb + 1)) by lia.
  assert (Hp : (0 < 2 ^ (lb + 1))%Z) by (apply Z.pow_pos_nonneg; lia).
  apply Qle_shift_div_r.
  - change 0 with (inject_Z 0). rewrite <- Zlt_Qlt. exact Hp.
  - unfold Qle, Qmult, inject_Z. cbn [Qnum Qden].
    rewrite !Z.mul_1_r, Pos.mul_1_r.
    apply Z.le_trans with (a * Z.pos b)%Z.
    + apply Z.mul_le_mono_nonneg_r; lia.
    + apply Z.mul_le_mono_nonneg_l; lia.
Qed.

Lemma floor_log2_bound (x : Q) (b : Z) :
  0 < x -> x <= pow2 b -> (floor_log2 x <= b)%Z.
Proof.
  intros Hx Hb. apply pow2_le_inv.
  apply Qle_trans with x; [now apply floor_log2_low | exact Hb].
Qed.

Lemma floor_log2_high (x : Q) : 0 < x -> x < pow2 (floor_log2 x + 1).
Proof.
  intro Hx. unfold floor_log2.
  destruct (Qle_bool _ x) eqn:E.
  - clear E. destruct x as [a b]. cbn [Qnum Qden].
    assert (Ha : (0 < a)%Z).
    { unfold Qlt in Hx. cbn in Hx. lia. }
    set (la := Z.log2 a). set (lb := Z.log2 (Z.pos b)).
    assert (Hla : (a < 2 ^ (la + 1))%Z).
    { unfold la. replace (Z.log2 a + 1)%Z with (Z.succ (Z.log2 a)) by lia.
      apply Z.log2_spec. exact Ha. }
    assert (Hlb : (2 ^ lb <= Z.pos b)%Z) by (apply Z.log2_spec; lia).
    assert (H0a : (0 <= la)%Z) by apply Z.log2_nonneg.
    assert (H0b : (0 <= lb)%Z) by apply Z.log2_nonneg.
    replace (la - lb + 1)%Z with (la + 1 - lb)%Z by lia.
    unfold pow2. rewrite Qpower_minus by discriminate.
    fold (pow2 (la + 1)). fold (pow2 lb).
    rewrite (pow2_nonneg_Z (la + 1)), (pow2_nonneg_Z lb) by lia.
    assert (Hp : (0 < 2 ^ lb)%Z) by (apply Z.pow_pos_nonneg; lia).
    apply Qlt_shift_div_l.
    + change 0 with (inject_Z 0). rewrite <- Zlt_Qlt. exact Hp.
    + unfold Qlt, Qmult, inject_Z. cbn [Qnum Qden].
      rewrite !Z.mul_1_r, Pos.mul_1_r.
      apply Z.le_lt_trans with (a * Z.pos b)%Z.
      * apply Z.mul_le_mono_nonneg_l; lia.
      * apply Z.mul_lt_mono_pos_r; lia.
  - replace (Z.log2 (Qnum x) - Z.log2 (Z.pos (Qden x)) - 1 + 1)%Z
      with (Z.log2 (Qnum x) - Z.log2 (Z.pos (Qden x)))%Z by lia.
    apply Qnot_le_lt. intro H. apply Qle_bool_iff in H. congruence.
Qed.

(** Rounding to the nearest integer: the result is the floor or the
    floor plus one, respects integer bounds and is off by at most one
    half. *)

Lemma round_nearest_even_cases (y : Q) :
  round_nearest_even y = Qfloor y \/
  (round_nearest_even y = (Qfloor y + 1)%Z /\ 1 # 2 <= y - inject_Z (Qfloor y)).
Proof.
  unfold round_nearest_even.
  destruct (Qltb (y - inject_Z (Qfloor y)) (1 # 2)) eqn:E1; [now left|].
  apply Qltb_false in E1.
  destruct (Qltb (1 # 2) _); [right; now split|].
  destruct (Z.even _); [now left | right; now split].
Qed.

Lemma round_nearest_even_le (y : Q) (n : Z) :
  y <= inject_Z n -> (round_nearest_even y <= n)%Z.
Proof.
  intro H. pose proof (Qfloor_le y) as Hf.
  pose proof (Qlt_floor y) as Hc.
  rewrite inject_Z_plus in Hc. change (inject_Z 1) with 1 in Hc.
  assert (Hfn : (Qfloor y <= n)%Z).
  { rewrite Zle_Qle. lra. }
  destruct (round_nearest_even_cases y) as [-> | [-> Hr]]; [exact Hfn|].
  assert (Hne : Qfloor y <> n).
  { intro E. rewrite E in Hr. lra. }
  lia.
Qed.

Lemma round_nearest_even_ge (y : Q) (n : Z) :
  inject_Z n <= y -> (n <= round_nearest_even y)%Z.
Proof.
  intro H.
  assert (Hfn : (n <= Qfloor y)%Z).
  { rewrite <- (Qfloor_Z n). now apply Qfloor_resp_le. }
  destruct (round_nearest_even_cases y) as [-> | [-> _]]; lia.
Qed.

Lemma round_nearest_even_error (y : Q) :
  Qabs (inject_Z (round_nearest_even y) - y) <= 1 # 2.
Proof.
  pose proof (Qfloor_le y) as Hf.
  pose proof (Qlt_floor y) as Hc.
  rewrite inject_Z_plus in Hc. change (inject_Z 1) with 1 in Hc.
  apply Qabs_Qle_condition. unfold round_nearest_even.
  destruct (Qltb (y - inject_Z (Qfloor y)) (1 # 2)) eqn:E1.
  - apply Qltb_true in E1. split; lra.
  - apply Qltb_false in E1.
    assert (G : - (1 # 2) <= inject_Z (Qfloor y + 1) - y <= 1 # 2).
    { rewrite inject_Z_plus. change (inject_Z 1) with 1. split; lra. }
    destruct (Qltb (1 # 2) _) eqn:E2; [exact G|].
    apply Qltb_false in E2.
    destruct (Z.even _); [split; lra | exact G].
Qed.

(** Rounding a positive rational to 53 significant bits. *)

Lemma scaled_back (x : Q) (e : Z) : x / pow2 e * pow2 e == x.
Proof. field. pose proof (pow2_pos e). lra. Qed.

Lemma round_53_pos (x : Q) : 0 < x -> 0 < round_53 x.
Proof.
  intro Hx. unfold round_53.
  set (e := (floor_log2 x - 52)%Z).
  pose proof (pow2_pos e) as He.
  assert (H1 : inject_Z 1 <= x / pow2 e).
  { change (inject_Z 1) with 1. apply Qle_shift_div_l; [exact He|].
    rewrite Qmult_1_l.
    apply Qle_trans with (pow2 (floor_log2 x)).
    - apply pow2_le. unfold e. lia.
    - now apply floor_log2_low. }
  apply round_nearest_even_ge in H1.
  assert (0 < inject_Z (round_nearest_even (x / pow2 e))).
  { change 0 with (inject_Z 0). rewrite <- Zlt_Qlt. lia. }
  now apply Qmult_lt_0_compat.
Qed.

(** A bound that lies on the grid of [x] is respected. *)
Lemma round_53_le (x : Q) (c j : Z) :
  0 < x -> x <= inject_Z c * pow2 j ->
  (floor_log2 x - 52 <= j)%Z ->
  round_53 x <= inject_Z c * pow2 j.
Proof.
  intros Hx Hc Hj. unfold round_53.
  set (e := (floor_log2 x - 52)%Z) in *.
  pose proof (pow2_pos e) as He.
  assert (Hg : pow2 j == inject_Z (2 ^ (j - e)) * pow2 e).
  { rewrite <- pow2_nonneg_Z by lia. rewrite <- pow2_plus.
    now replace (j - e + e)%Z with j by lia. }
  assert (Hy : x / pow2 e <= inject_Z (c * 2 ^ (j - e))).
  { apply Qle_shift_div_r; [exact He|].
    rewrite inject_Z_mult, <- Qmult_assoc, <- Hg. exact Hc. }
  apply round_nearest_even_le in Hy.
  rewrite Hg, Qmult_assoc, <- inject_Z_mult.
  apply Qmult_le_compat_r; [|lra].
  now rewrite <- Zle_Qle.
Qed.

Lemma round_53_error (x : Q) :
  0 < x ->
  Qabs (round_53 x - x) <= (1 # 2) * pow2 (floor_log2 x - 52).
Proof.
  intro Hx. unfold round_53.
  set (e := (floor_log2 x - 52)%Z).
  pose proof (pow2_pos e) as He.
  pose proof (round_nearest_even_error (x / pow2 e)) as Hr.
  set (n := inject_Z (round_nearest_even (x / pow2 e))) in *.
  assert (E : n * pow2 e - x == (n - x / pow2 e) * pow2 e).
  { field. lra. }
  rewrite E, Qabs_Qmult, (Qabs_pos (pow2 e)) by lra.
  apply Qmult_le_compat_r; [exact Hr | lra].
Qed.

(** The significand of a rounded number has 53 bits: it lies between
    [2 ^ 52] and [2 ^ 53]. *)
Lemma round_53_significand (x : Q) :
  0 < x ->
  (2 ^ 52 <= round_nearest_even (x / pow2 (floor_log2 x - 52)) <= 2 ^ 53)%Z.
Proof.
  intro Hx.
  pose proof (floor_log2_low x Hx) as Hlo.
  pose proof (floor_log2_high x Hx) as Hhi.
  set (k := floor_log2 x) in *.
  pose proof (pow2_pos (k - 52)) as He.
  assert (E1 : pow2 k == inject_Z (2 ^ 52) * pow2 (k - 52)).
  { rewrite <- (pow2_nonneg_Z 52) by lia. rewrite <- pow2_plus.
    now replace (52 + (k - 52))%Z with k by lia. }
  assert (E2 : pow2 (k + 1) == inject_Z (2 ^ 53) * pow2 (k - 52)).
  { rewrite <- (pow2_nonneg_Z 53) by lia. rewrite <- pow2_plus.
    now replace (53 + (k - 52))%Z with (k + 1)%Z by lia. }
  split.
  - apply round_nearest_even_ge. apply Qle_shift_div_l; [exact He|].
    now rewrite <- E1.
  - apply round_nearest_even_le. apply Qle_shift_div_r; [exact He|].
    rewrite <- E2. now apply Qlt_le_weak.
Qed.

(** The double nearest to a rational: it depends on the value only,
    keeps the sign, respects a bound that is itself representable, and
    is off by at most half a unit in the last place. *)

#[global] Instance to_double_comp : Proper (Qeq ==> Qeq) to_double.
Proof.
  intros x y H. unfold to_double.
  now rewrite (Qred_complete x y H).
Qed.

Lemma to_double_cases (x : Q) :
  (0 < x /\ to_double x = round_53 (Qred x)) \/
  (x < 0 /\ to_double x = - round_53 (- Qred x)) \/
  (x == 0 /\ to_double x = 0).
Proof.
  unfold to_double. pose proof (Qred_correct x) as Hr.
  destruct (Qltb 0 (Qred x)) eqn:E1.
  - left. apply Qltb_true in E1. split; [lra | reflexivity].
  - apply Qltb_false in E1. destruct (Qltb (Qred x) 0) eqn:E2.
    + right; left. apply Qltb_true in E2. split; [lra | reflexivity].
    + right; right. apply Qltb_false in E2. split; [lra | reflexivity].
Qed.

Lemma to_double_sign (x : Q) :
  (0 <= to_double x <-> 0 <= x) /\ (to_double x == 0 <-> x == 0).
Proof.
  pose proof (Qred_correct x) as Hr.
  destruct (to_double_cases x) as [[Hx ->] | [[Hx ->] | [Hx ->]]].
  - assert (0 < round_53 (Qred x)) by (apply round_53_pos; lra).
    split; split; intro; lra.
  - assert (0 < round_53 (- Qred x)) by (apply round_53_pos; lra).
    split; split; intro; lra.
  - split; split; intro; lra.
Qed.

Lemma to_double_bounded (x : Q) (c j b : Z) :
  Qabs x <= inject_Z c * pow2 j ->
  inject_Z c * pow2 j <= pow2 b ->
  (b - 52 <= j)%Z ->
  Qabs (to_double x) <= inject_Z c * pow2 j.
Proof.
  intros Hx Hb Hj. pose proof (Qred_correct x) as Hr.
  apply Qabs_Qle_condition in Hx. destruct Hx as [Hlo Hhi].
  assert (G : forall y, 0 < y -> y <= inject_Z c * pow2 j ->
                        0 < round_53 y <= inject_Z c * pow2 j).
  { intros y Hy Hyc. split; [now apply round_53_pos|].
    apply round_53_le; try assumption.
    assert (floor_log2 y <= b)%Z by (apply floor_log2_bound; lra). lia. }
  apply Qabs_Qle_condition.
  destruct (to_double_cases x) as [[H0 ->] | [[H0 ->] | [H0 ->]]].
  - destruct (G (Qred x)); lra.
  - destruct (G (- Qred x)); lra.
  - lra.
Qed.

Lemma to_double_error (x : Q) (b : Z) :
  Qabs x <= pow2 b ->
  Qabs (to_double x - x) <= pow2 (b - 53).
Proof.
  intro Hx. pose proof (Qred_correct x) as Hr.
  apply Qabs_Qle_condition in Hx. destruct Hx as [Hlo Hhi].
  assert (Hh : forall e, (1 # 2) * pow2 e == pow2 (e - 1)).
  { intro e. replace (e - 1)%Z with (e + -1)%Z by lia.
    rewrite pow2_plus. change (pow2 (-1)) with (/ 2). field. }
  assert (G : forall y, 0 < y -> y <= pow2 b ->
                        Qabs (round_53 y - y) <= pow2 (b - 53)).
  { intros y Hy Hyb.
    apply Qle_trans with ((1 # 2) * pow2 (floor_log2 y - 52)).
    - now apply round_53_error.
    - rewrite Hh. apply pow2_le.
      assert (floor_log2 y <= b)%Z by (now apply floor_log2_bound). lia. }
  destruct (to_double_cases x) as [[H0 ->] | [[H0 ->] | [H0 ->]]].
  - assert (E : round_53 (Qred x) - x == round_53 (Qred x) - Qred x) by lra.
    rewrite E. apply G; lra.
  - assert (E : - round_53 (- Qred x) - x
                == - (round_53 (- Qred x) - - Qred x)) by lra.
    rewrite E, Qabs_opp. apply G; lra.
  - rewrite H0. setoid_replace (0 - 0) with 0 by ring.
    cbn [Qabs]. pose proof (pow2_pos (b - 53)). lra.
Qed.

Lemma to_double_ext (x y : Q) : x == y -> to_double x = to_double y.
Proof.
  intro H. unfold to_double. now rewrite (Qred_complete x y H).
Qed.

Lemma to_double_nonneg_bool (x : Q) :
  Qle_bool 0 (to_double x) = Qle_bool 0 x.
Proof.
  destruct (to_double_sign x) as [[S1 S2] _].
  destruct (Qle_bool 0 x) eqn:E.
  - apply Qle_bool_iff. apply S2. now apply Qle_bool_iff.
  - destruct (Qle_bool 0 (to_double x)) eqn:F; [|reflexivity].
    apply Qle_bool_iff in F. apply S1 in F. apply Qle_bool_iff in F.
    congruence.
Qed.

Lemma Qopp_opp_eq (y : Q) : - - y = y.
Proof.
  destruct y as [a b]. unfold Qopp. cbn [Qnum Qden].
  now rewrite Z.opp_involutive.
Qed.

Lemma to_double_opp (x : Q) : to_double (- x) == - to_double x.
Proof.
  unfold to_double. rewrite Qred_opp.
  set (y := Qred x).
  destruct (Qltb 0 y) eqn:E1.
  - apply Qltb_true in E1.
    assert (F1 : Qltb 0 (- y) = false) by (apply Qltb_false; lra).
    assert (F2 : Qltb (- y) 0 = true) by (apply Qltb_true; lra).
    rewrite F1, F2, Qopp_opp_eq. reflexivity.
  - apply Qltb_false in E1. destruct (Qltb y 0) eqn:E2.
    + apply Qltb_true in E2.
      assert (F1 : Qltb 0 (- y) = true) by (apply Qltb_true; lra).
      rewrite F1. ring.
    + apply Qltb_false in E2.
      assert (F1 : Qltb 0 (- y) = false) by (apply Qltb_false; lra).
      assert (F2 : Qltb (- y) 0 = false) by (apply Qltb_false; lra).
      rewrite F1, F2. reflexivity.
Qed.

(** ** The set-voltage encoder *)

Lemma clip_Qminmax (x bound : Q) :
  0 <= bound -> clip x bound == Qmax (- bound) (Qmin bound x).
Proof.
  intro Hb. unfold clip.
  destruct (Qltb bound x) eqn:E1.
  - apply Qltb_true in E1.
    rewrite (Q.min_l bound x) by lra. rewrite Q.max_r by lra. reflexivity.
  - apply Qltb_false in E1. rewrite (Q.min_r bound x) by lra.
    destruct (Qltb x (- bound)) eqn:E2.
    + apply Qltb_true in E2. rewrite Q.max_l by lra. reflexivity.
    + apply Qltb_false in E2. rewrite Q.max_r by lra. reflexivity.
Qed.

Lemma clip_corrected (voltage : Q) (dir : Z) :
  clip voltage 0.5 * inject_Z dir == spec_corrected_voltage voltage dir.
Proof.
  unfold spec_corrected_voltage. rewrite clip_Qminmax by lra. reflexivity.
Qed.

Lemma round_comp (x y : Q) : x == y -> round x = round y.
Proof.
  intro H. unfold round. rewrite (Qleb_comp 0 0 (Qeq_refl 0) x y H).
  destruct (Qle_bool 0 y).
  - apply Qfloor_comp. now rewrite H.
  - f_equal. apply Qfloor_comp. now rewrite H.
Qed.

(** The magnitude of the corrected voltage is at most one half when the
    direction is [+1] or [-1]. *)
Lemma corrected_voltage_magnitude (voltage : Q) (dir : Z) :
  dir = 1%Z \/ dir = (-1)%Z ->
  Qabs (clip voltage 0.5 * inject_Z dir) <= 0.5.
Proof.
  intro Hd. pose proof (clip_range voltage 0.5) as Hc.
  assert (H0 : 0 <= 0.5) by lra. specialize (Hc H0).
  apply Qabs_Qle_condition.
  destruct Hd as [-> | ->].
  - assert (E : clip voltage 0.5 * inject_Z 1 == clip voltage 0.5) by ring.
    rewrite E. lra.
  - assert (E : clip voltage 0.5 * inject_Z (-1) == - clip voltage 0.5)
      by ring.
    rewrite E. lra.
Qed.

(** One half is a double, so rounding keeps a magnitude below it. *)
Lemma double_voltage_bound (x : Q) :
  Qabs x <= 0.5 -> Qabs (to_double x) <= 0.5.
Proof.
  intro H.
  apply Qle_trans with (inject_Z 1 * pow2 (-1)); [|vm_compute; discriminate].
  apply (to_double_bounded x 1 (-1) (-1)).
  - apply Qle_trans with 0.5; [exact H | vm_compute; discriminate].
  - vm_compute; discriminate.
  - lia.
Qed.

(** 127.5 is a double as well. *)
Lemma double_product_bound (a : Q) :
  0 <= a -> a <= 0.5 -> 0 <= double_mul a 255 <= 127.5.
Proof.
  intros H0 H1. unfold double_mul. split.
  - apply (proj1 (to_double_sign (a * 255))). lra.
  - apply Qle_trans with (Qabs (to_double (a * 255))); [apply Qle_Qabs|].
    apply Qle_trans with (inject_Z 255 * pow2 (-1));
      [|vm_compute; discriminate].
    apply (to_double_bounded (a * 255) 255 (-1) 7).
    + rewrite Qabs_pos by lra.
      apply Qle_trans with (0.5 * 255); [lra | vm_compute; discriminate].
    + vm_compute; discriminate.
    + lia.
Qed.

Lemma round_half_bound (x : Q) :
  0 <= x -> x <= 127.5 -> (0 <= round x <= 128)%Z.
Proof.
  intros H0 H1. unfold round.
  apply Qle_bool_iff in H0. rewrite H0. apply Qle_bool_iff in H0.
  split.
  - change 0%Z with (Qfloor 0). apply Qfloor_resp_le. lra.
  - change 128%Z with (Qfloor 128). apply Qfloor_resp_le. lra.
Qed.

Lemma pwm_bound (voltage : Q) (dir : Z) :
  dir = 1%Z \/ dir = (-1)%Z ->
  (0 <= round (double_mul
                 (Qabs (double_mul (clip voltage 0.5) (inject_Z dir))) 255)
   <= 128)%Z.
Proof.
  intro Hd.
  pose proof (double_voltage_bound _
                (corrected_voltage_magnitude voltage dir Hd)) as Hv.
  fold (double_mul (clip voltage 0.5) (inject_Z dir)) in Hv.
  pose proof (Qabs_nonneg (double_mul (clip voltage 0.5) (inject_Z dir))) as H0.
  destruct (double_product_bound _ H0 Hv) as [P0 P1].
  now apply round_half_bound.
Qed.

(** A requested voltage that is a double stays exact through the clamp
    and the correction by a direction of [+1] or [-1]. *)
Lemma corrected_voltage_exact (voltage : Q) (dir : Z) :
  dir = 1%Z \/ dir = (-1)%Z ->
  to_double voltage == voltage ->
  to_double (clip voltage 0.5 * inject_Z dir)
  == clip voltage 0.5 * inject_Z dir.
Proof.
  intros Hd Hv.
  assert (Hc : to_double (clip voltage 0.5) == clip voltage 0.5).
  { unfold clip. destruct (Qltb 0.5 voltage); [reflexivity|].
    destruct (Qltb voltage _); [reflexivity | exact Hv]. }
  destruct Hd as [-> | ->].
  - assert (E : clip voltage 0.5 * inject_Z 1 == clip voltage 0.5) by ring.
    rewrite (to_double_ext _ _ E), E. exact Hc.
  - assert (E : clip voltage 0.5 * inject_Z (-1) == - clip voltage 0.5)
      by ring.
    rewrite (to_double_ext _ _ E), E, to_double_opp, Hc. reflexivity.
Qed.

Section Encoder.
Context {CA : checksum_algorithm}.

(** What [enqueue_command_set_voltage] appends to the send queue. *)
Lemma enqueue_command_set_voltage_bytes (voltage : Q) (m : sensorimotor) :
  let v := double_mul (clip voltage 0.5) (inject_Z (direction m)) in
  let cmd := if Qle_bool 0 v then 0xB0%Z else 0xB1%Z in
  let pwm := to_uint8 (round (double_mul (Qabs v) 255)) in
  send_queue (com (enqueue_command_set_voltage voltage m)) =
  send_queue (com m) ++
    set_voltage_frame v (motor_id m) pwm
      (checksum_byte
         (fold_left checksum_add [cmd; motor_id m; pwm] checksum_reset)).
Proof.
  cbv zeta. unfold enqueue_command_set_voltage, set_voltage_frame.
  destruct (Qle_bool 0 (double_mul (clip voltage 0.5)
                          (inject_Z (direction m))));
    cbn -[double_mul round to_uint8 clip]; rewrite <- !app_assoc; reflexivity.
Qed.

(** C3, as amended.  The bytes appended to the send queue by the set-voltage
    encoder are 0xFF 0xFF, then 0xB0 when the corrected voltage [v'] is
    non-negative and 0xB1 otherwise, then the motor id, then the payload
    byte, then the checksum byte of the channel; [v'] is the requested
    voltage clamped to [[-0.5, +0.5]] and multiplied by the direction.
    The payload is not the rounding of the real number [|v'| * 255]: it
    is [round p], where [p] is the double-precision product of [|v'|]
    (itself rounded to a double) and 255.  The byte is [round p] whenever
    that fits a byte, and always for a direction of [+1] or [-1]; for
    such a direction and a requested voltage that is a double, [v'] is
    exact and the multiplication by 255 is the only rounding. *)
Theorem set_voltage_frame_layout (voltage : Q) (m : sensorimotor) :
  let v' := spec_corrected_voltage voltage (direction m) in
  let cmd := if Qle_bool 0 v' then 0xB0%Z else 0xB1%Z in
  let p := double_mul (Qabs (to_double v')) 255 in
  exists pwm : Z,
    send_queue (com (enqueue_command_set_voltage voltage m)) =
    send_queue (com m) ++
      [0xFF%Z; 0xFF%Z; cmd; motor_id m; pwm;
       checksum_byte
         (fold_left checksum_add [cmd; motor_id m; pwm] checksum_reset)]
    /\
    ((0 <= round p <= 255)%Z -> pwm = round p) /\
    (direction m = 1%Z \/ direction m = (-1)%Z ->
     pwm = round p /\
     (to_double voltage == voltage -> p = double_mul (Qabs v') 255)).
Proof.
  cbv zeta.
  pose proof (clip_corrected voltage (direction m)) as Hv.
  assert (Hd : double_mul (clip voltage 0.5) (inject_Z (direction m))
               = to_double (spec_corrected_voltage voltage (direction m))).
  { unfold double_mul. apply to_double_ext, Hv. }
  assert (Hs : Qle_bool 0 (to_double
                             (spec_corrected_voltage voltage (direction m)))
               = Qle_bool 0 (spec_corrected_voltage voltage (direction m))).
  { apply to_double_nonneg_bool. }
  pose proof (enqueue_command_set_voltage_bytes voltage m) as E.
  cbv zeta in E. unfold set_voltage_frame in E.
  rewrite Hd, Hs in E.
  eexists. split; [exact E|]. split.
  - intro Hr. unfold to_uint8. apply Z.mod_small. lia.
  - intro Hdir. split.
    + pose proof (pwm_bound voltage (direction m) Hdir) as B.
      rewrite Hd in B. unfold to_uint8. apply Z.mod_small. lia.
    + intro Hdbl. unfold double_mul. apply to_double_ext.
      pose proof (corrected_voltage_exact voltage (direction m) Hdir Hdbl)
        as X.
      rewrite (to_double_ext _ _ Hv), Hv in X.
      now rewrite X.
Qed.

(** C10.  For a direction of [+1] or [-1] the payload byte of the
    set-voltage frame lies in [[0, 128]], whatever voltage is requested:
    the bytes 129 to 255 are never emitted. *)
Theorem set_voltage_pwm_at_most_128 (voltage : Q) (m : sensorimotor) :
  direction m = 1%Z \/ direction m = (-1)%Z ->
  exists cmd pwm chk : Z,
    send_queue (com (enqueue_command_set_voltage voltage m)) =
    send_queue (com m) ++ [0xFF%Z; 0xFF%Z; cmd; motor_id m; pwm; chk] /\
    (0 <= pwm <= 128)%Z.
Proof.
  intro Hd.
  pose proof (enqueue_command_set_voltage_bytes voltage m) as E.
  cbv zeta in E. unfold set_voltage_frame in E.
  eexists _, _, _. split; [exact E|].
  pose proof (pwm_bound voltage (direction m) Hd) as Hb.
  unfold to_uint8. rewrite Z.mod_small by lia. exact Hb.
Qed.
End Encoder.

(** C3 at the default device (id 5, direction 1) with the additive
    checksum: a request of the double 0.3 gives payload 77 (0x4D), where
    the product rounded is 76.5; a request of -2 with direction -1 gives
    the forward command and payload 128. *)
Lemma set_voltage_frame_layout_witness :
  send_queue
    (com (@enqueue_command_set_voltage additive_checksum double_0_3 motor5))
  = [0xFF; 0xFF; 0xB0; 0x05; 0x4D; 0xFE]%Z /\
  send_queue
    (com (@enqueue_command_set_voltage additive_checksum (- (2))
            (set_direction (-1) motor5)))
  = [0xFF; 0xFF; 0xB0; 0x05; 0x80; 0xCB]%Z /\
  round (double_mul (Qabs (spec_corrected_voltage double_0_3 1)) 255) = 77%Z.
Proof.
  pose proof (@set_voltage_frame_layout additive_checksum double_0_3 motor5)
    as T1.
  pose proof (@set_voltage_frame_layout additive_checksum (- (2))
                (set_direction (-1) motor5)) as T2.
  cbv zeta in T1, T2.
  destruct T1 as (pwm1 & E1 & _ & D1). destruct T2 as (pwm2 & E2 & _ & D2).
  destruct (D1 (or_introl eq_refl)) as [P1 Q1].
  destruct (D2 (or_intror eq_refl)) as [P2 _].
  split; [rewrite E1, P1; vm_compute; reflexivity|].
  split; [rewrite E2, P2; vm_compute; reflexivity|].
  change 1%Z with (direction motor5).
  rewrite <- Q1 by (vm_compute; reflexivity).
  vm_compute. reflexivity.
Defined.

(** C3 as stated fails: the double nearest to 0.3 is slightly below
    3/10, so for a request of that double (direction 1) the real number
    [|v'| * 255] lies below 76.5 and [round] of it is 76; the product
    computed on doubles is 76.5 and the byte sent is 77. *)
Lemma set_voltage_payload_is_not_exact_round :
  to_double double_0_3 = double_0_3 /\
  direction motor5 = 1%Z /\
  round (Qabs (spec_corrected_voltage double_0_3 (direction motor5)) * 255)
  = 76%Z /\
  send_queue
    (com (@enqueue_command_set_voltage additive_checksum double_0_3 motor5))
  = [0xFF; 0xFF; 0xB0; 0x05; 77; 0xFE]%Z /\
  forall chk : Z,
    send_queue
      (com (@enqueue_command_set_voltage additive_checksum double_0_3 motor5))
    <> [0xFF; 0xFF; 0xB0; 0x05;
        round (Qabs (spec_corrected_voltage double_0_3 (direction motor5))
               * 255);
        chk]%Z.
Proof.
  split; [vm_compute; reflexivity|]. split; [reflexivity|].
  split; [vm_compute; reflexivity|]. split; [vm_compute; reflexivity|].
  intros chk H. vm_compute in H. discriminate H.
Qed.

(** C10 at the default device for the largest request. *)
Lemma set_voltage_pwm_at_most_128_witness :
  exists cmd pwm chk : Z,
    send_queue
      (com (@enqueue_command_set_voltage additive_checksum 7 motor5))
    = [0xFF%Z; 0xFF%Z; cmd; 5%Z; pwm; chk] /\ (0 <= pwm <= 128)%Z.
Proof.
  apply (@set_voltage_pwm_at_most_128 additive_checksum 7 motor5).
  left. reflexivity.
Defined.

(** ** The statistics tracker *)

Lemma wrap_unsigned_small (n : Z) :
  (0 <= n < 2 ^ 32)%Z -> wrap_unsigned n = n.
Proof. intro H. unfold wrap_unsigned. now apply Z.mod_small. Qed.

(** C8.  [update] adds one to the error counter exactly when [invalid]
    is set and one to the timeout counter exactly when [timeout] is set
    (as the [unsigned] counters they are, modulo 2^32), sets [faulted] to
    [timeout || invalid], stores the elapsed time as last response time,
    sets the average to [0.99 * old + 0.01 * time] and the maximum to the
    larger of the old maximum and the elapsed time.  These are all the
    fields of the record. *)
Theorem statistics_update (st : Statistics_t) (time_us : Z)
    (timeout invalid : bool) :
  update st time_us timeout invalid =
  {| errors := if invalid then wrap_unsigned (errors st + 1) else errors st;
     timeouts :=
       if timeout then wrap_unsigned (timeouts st + 1) else timeouts st;
     response_time_us := time_us;
     avg_resp_time_us :=
       0.99 * avg_resp_time_us st + 0.01 * inject_Z time_us;
     max_resp_time_us := Z.max (max_resp_time_us st) time_us;
     faulted := timeout || invalid |}
  /\
  (invalid = false -> errors (update st time_us timeout invalid) = errors st)
  /\
  (timeout = false ->
   timeouts (update st time_us timeout invalid) = timeouts st)
  /\
  (invalid = true -> (0 <= errors st < 2 ^ 32 - 1)%Z ->
   errors (update st time_us timeout invalid) = (errors st + 1)%Z)
  /\
  (timeout = true -> (0 <= timeouts st < 2 ^ 32 - 1)%Z ->
   timeouts (update st time_us timeout invalid) = (timeouts st + 1)%Z).
Proof.
  split; [|split; [|split; [|split]]].
  - unfold update. f_equal.
    destruct (Z.ltb_spec (max_resp_time_us st) time_us); lia.
  - intros ->. reflexivity.
  - intros ->. reflexivity.
  - intros -> H. cbn. apply wrap_unsigned_small. lia.
  - intros -> H. cbn. apply wrap_unsigned_small. lia.
Qed.

(** C8 on a record with 3 errors, 7 timeouts, average 200 and maximum
    400, for a cycle of 500 us that decoded invalid data. *)
Lemma statistics_update_witness :
  let st := mk_Statistics 3 7 120 200 400 false in
  errors (update st 500 false true) = 4%Z /\
  timeouts (update st 500 false true) = 7%Z /\
  max_resp_time_us (update st 500 false true) = 500%Z /\
  faulted (update st 500 false true) = true /\
  avg_resp_time_us (update st 500 false true) == 203.
Proof.
  cbv zeta.
  pose proof (statistics_update (mk_Statistics 3 7 120 200 400 false)
                500 false true) as (T0 & _ & T2 & T3 & _).
  split; [apply T3; [reflexivity | cbn; lia]|].
  split; [apply T2; reflexivity|].
  rewrite T0. cbn. repeat split.
Defined.

(** ** The frame parser *)

Section ParserProperties.
Context {CA : checksum_algorithm}.

Local Arguments Qmult : simpl never.
Local Arguments Qdiv : simpl never.
Local Arguments inject_Z : simpl never.
Local Arguments uint_to_sc : simpl never.
Local Arguments to_int16 : simpl never.
Local Arguments Z.mul : simpl never.
Local Arguments Z.add : simpl never.
Local Arguments Z.modulo : simpl never.
Local Arguments Z.eqb : simpl never.
Local Arguments Nat.ltb : simpl nomatch.

Lemma arrive_nil (m : sensorimotor) : arrive [] m = m.
Proof.
  destruct m as [id [q rc sq sc] rq rs dir d e zz tp tv cm cf lo hi kp ph ss st ct].
  unfold arrive, read_msg, with_com. cbn. now rewrite app_nil_r.
Qed.

Lemma arrive_app (a b : list Z) (m : sensorimotor) :
  arrive (a ++ b) m = arrive b (arrive a m).
Proof.
  unfold arrive, read_msg, with_com. cbn. now rewrite app_assoc.
Qed.

Lemma size_arrive (r : list Z) (m : sensorimotor) :
  size (com (arrive r m)) = (size (com m) + length r)%nat.
Proof. unfold size. cbn. apply length_app. Qed.

Lemma receive_data_nil (m : sensorimotor) :
  receive_data [] m = receive_data_switch m.
Proof. unfold receive_data. now rewrite arrive_nil. Qed.

Lemma drain_S (fuel : nat) (m : sensorimotor) :
  drain (S fuel) m =
  let (again, m') := receive_data_switch m in
  if again then drain fuel m' else m'.
Proof. cbn [drain]. now rewrite receive_data_nil. Qed.

(** A queue of more than [n] bytes, taken apart. *)
Tactic Notation "explode" ident(q) ident(E) integer(n) :=
  do n (destruct q as [|? q]; [cbn in E; discriminate E|]).


Local Arguments receive_state_data : simpl never.
Local Arguments receive_ping_response : simpl never.

Ltac open_device m :=
  destruct m as
    [id [q rc sq sc] rq rs dir d e zz tp tv cm cf lo hi kp ph ss st ct].

(** Evaluation of the parser on a queue whose first bytes are known;
    call-by-value, the arithmetic on the bytes left alone. *)
Ltac run_parser :=
  cbv -[Qmult Qdiv Qplus inject_Z uint_to_sc to_int16 Z.mul Z.add Z.modulo
        Z.eqb Z.ltb checksum_add checksum_ok checksum_reset checksum_byte
        current_scale voltage_scale].

Ltac run_parser_keeping_length :=
  cbv -[Qmult Qdiv Qplus inject_Z uint_to_sc to_int16 Z.mul Z.add Z.modulo
        Z.eqb Z.ltb checksum_add checksum_ok checksum_reset checksum_byte
        current_scale voltage_scale length Nat.lt lt].

(** A call that reports progress has removed at least one byte. *)
Lemma switch_true_consumes (m m' : sensorimotor) :
  receive_data_switch m = (true, m') ->
  (size (com m') < size (com m))%nat.
Proof.
  intro H. open_device m. unfold receive_data_switch in H. cbn in H.
  destruct ss.
  - destruct q as [|b q]; cbn in H; [discriminate|].
    destruct (b =? 255)%Z; inversion H; subst; cbn; lia.
  - destruct q as [|b q]; cbn in H; [discriminate|].
    destruct (b =? 255)%Z; inversion H; subst; cbn; lia.
  - destruct q as [|b q]; cbn in H; [discriminate|].
    destruct (b =? 128)%Z.
    + destruct (12 <? _)%nat eqn:E; [|discriminate].
      cbn in E. explode q E 12. inversion H; subst.
      run_parser_keeping_length.
      destruct (_ =? id)%Z; cbn [length]; lia.
    + destruct (b =? 225)%Z; [|discriminate].
      destruct (2 <? _)%nat eqn:E; [|discriminate].
      cbn in E. explode q E 2. inversion H; subst.
      run_parser_keeping_length. cbn [length]. lia.
  - discriminate.
  - discriminate.
Qed.

(** Progress does not depend on what arrives later: the same call on a
    longer queue makes the same progress and leaves the extra bytes. *)
Lemma switch_true_arrive (m m' : sensorimotor) (r : list Z) :
  receive_data_switch m = (true, m') ->
  receive_data_switch (arrive r m) = (true, arrive r m').
Proof.
  intro H. open_device m. unfold receive_data_switch in H. cbn in H.
  destruct ss.
  - destruct q as [|b q]; cbn in H; [discriminate|].
    unfold receive_data_switch. cbn.
    destruct (b =? 255)%Z; inversion H; subst; reflexivity.
  - destruct q as [|b q]; cbn in H; [discriminate|].
    unfold receive_data_switch. cbn.
    destruct (b =? 255)%Z; inversion H; subst; reflexivity.
  - destruct q as [|b q]; cbn in H; [discriminate|].
    destruct (b =? 128)%Z eqn:Eb.
    + destruct (12 <? _)%nat eqn:E; [|discriminate].
      cbn in E. explode q E 12. inversion H; subst. clear H E.
      run_parser. rewrite Eb.
      destruct (_ =? id)%Z; reflexivity.
    + destruct (b =? 225)%Z eqn:Ec; [|discriminate].
      destruct (2 <? _)%nat eqn:E; [|discriminate].
      cbn in E. explode q E 2. inversion H; subst. clear H E.
      run_parser. rewrite Eb, Ec. reflexivity.
  - discriminate.
  - discriminate.
Qed.

Lemma quiescent_switch (m : sensorimotor) :
  quiescent m <-> receive_data_switch m = (false, m).
Proof. unfold quiescent. now rewrite receive_data_nil. Qed.

Lemma terminal_quiescent (m : sensorimotor) :
  terminal m = true -> receive_data_switch m = (false, m).
Proof.
  unfold terminal, is_pending, receive_data_switch.
  destruct (syncstate m); cbn; intro H; try discriminate; reflexivity.
Qed.

Lemma empty_quiescent (m : sensorimotor) :
  recv_queue (com m) = [] -> receive_data_switch m = (false, m).
Proof.
  intro H. unfold receive_data_switch, empty. rewrite H.
  destruct (syncstate m); reflexivity.
Qed.

(** A call that reports no progress either changes nothing or has seen
    an unknown command byte and marks the state [invalid]. *)
Lemma switch_false_cases (m m' : sensorimotor) :
  receive_data_switch m = (false, m') ->
  m' = m \/
  (syncstate m = processing /\ m' = with_syncstate invalid m /\
   empty (com m) = false /\
   (front (com m) =? 0x80)%Z = false /\ (front (com m) =? 0xE1)%Z = false).
Proof.
  unfold receive_data_switch. intro H.
  destruct (syncstate m) eqn:Es.
  - destruct (empty (com m)); [left; congruence|].
    destruct (_ =? _)%Z; discriminate.
  - destruct (empty (com m)); [left; congruence|].
    destruct (_ =? _)%Z; discriminate.
  - destruct (empty (com m)) eqn:Ee; [left; congruence|]. cbv zeta in H.
    destruct (front (com m) =? 128)%Z eqn:E1.
    + destruct (12 <? _)%nat; [discriminate | left; congruence].
    + destruct (front (com m) =? 225)%Z eqn:E2.
      * destruct (2 <? _)%nat; [discriminate | left; congruence].
      * right. repeat split; congruence.
  - left. congruence.
  - left. congruence.
Qed.

Lemma switch_false_quiescent (m m' : sensorimotor) :
  receive_data_switch m = (false, m') ->
  receive_data_switch m' = (false, m').
Proof.
  intro H. destruct (switch_false_cases m m' H) as [-> | (_ & -> & _)].
  - exact H.
  - apply terminal_quiescent. reflexivity.
Qed.

(** After a call without progress, bytes that arrive later are treated
    the same whether or not that call had been made. *)
Lemma switch_false_arrive (m m' : sensorimotor) (r : list Z) (fuel : nat) :
  receive_data_switch m = (false, m') ->
  drain (S fuel) (arrive r m') = drain (S fuel) (arrive r m).
Proof.
  intro H.
  destruct (switch_false_cases m m' H) as [-> | (Es & -> & Ee & E1 & E2)].
  - reflexivity.
  - rewrite !drain_S.
    rewrite (terminal_quiescent (arrive r (with_syncstate invalid m)))
      by reflexivity.
    assert (Hq : exists b q, recv_queue (com m) = b :: q).
    { unfold empty in Ee. destruct (recv_queue (com m)) as [|b q];
        [discriminate | eauto]. }
    destruct Hq as (b & q & Hq).
    unfold front in E1, E2. rewrite Hq in E1, E2. cbn in E1, E2.
    unfold receive_data_switch.
    change (syncstate (arrive r m)) with (syncstate m). rewrite Es.
    unfold empty, front. cbn [arrive with_com com read_msg recv_queue].
    rewrite Hq. cbn [app hd]. rewrite E1, E2. reflexivity.
Qed.

(** Enough fuel: more changes nothing. *)
Lemma drain_more (fuel : nat) :
  forall (m : sensorimotor) (more : nat),
    (size (com m) < fuel)%nat -> (fuel <= more)%nat ->
    drain more m = drain fuel m.
Proof.
  induction fuel as [|fuel IH]; intros m more Hs Hm; [lia|].
  destruct more as [|more]; [lia|]. rewrite !drain_S.
  destruct (receive_data_switch m) as [[|] m'] eqn:E; [|reflexivity].
  apply switch_true_consumes in E. apply IH; lia.
Qed.

(** The loop [while(receive_data());] exits: with the fuel of [settle]
    the last call made has returned [false]. *)
Lemma drain_exits (fuel : nat) :
  forall m : sensorimotor,
    (size (com m) < fuel)%nat -> quiescent (drain fuel m).
Proof.
  induction fuel as [|fuel IH]; intros m Hs; [lia|].
  rewrite drain_S.
  destruct (receive_data_switch m) as [[|] m'] eqn:E.
  - apply switch_true_consumes in E. apply IH. lia.
  - apply quiescent_switch. eapply switch_false_quiescent. exact E.
Qed.

Lemma settle_quiescent (m : sensorimotor) : quiescent (settle m).
Proof. apply drain_exits. lia. Qed.

Lemma quiescent_settle (m : sensorimotor) : quiescent m -> settle m = m.
Proof.
  intro H. apply quiescent_switch in H. unfold settle.
  rewrite drain_S, H. reflexivity.
Qed.

Lemma settle_step (m : sensorimotor) :
  settle m =
  let (again, m') := receive_data_switch m in
  if again then settle m' else m'.
Proof.
  unfold settle at 1. rewrite drain_S.
  destruct (receive_data_switch m) as [[|] m'] eqn:E; [|reflexivity].
  apply switch_true_consumes in E. unfold settle. apply drain_more; lia.
Qed.

(** One parser call, then the rest of the loop: the same as the loop. *)
Lemma settle_after_call (r : list Z) (m a : sensorimotor) (again : bool) :
  receive_data_switch m = (again, a) ->
  settle (arrive r a) = settle (arrive r m).
Proof.
  intro H. destruct again.
  - rewrite (settle_step (arrive r m)).
    now rewrite (switch_true_arrive m a r H).
  - unfold settle.
    assert (Hs : size (com (arrive r a)) = size (com (arrive r m))).
    { rewrite !size_arrive.
      destruct (switch_false_cases m a H) as [-> | (_ & -> & _)];
        reflexivity. }
    rewrite Hs. now apply switch_false_arrive.
Qed.

(** Feeding call by call, in any chunks, and then letting the loop run
    is the same as having everything readable at the first call. *)
Lemma feed_then_settle (events : list (list Z)) :
  forall m : sensorimotor,
    settle (feed events m) = while_receive_data (concat events) m.
Proof.
  unfold while_receive_data, feed.
  induction events as [|c events IH]; intro m; cbn [fold_left concat].
  - now rewrite arrive_nil.
  - rewrite IH. rewrite arrive_app. unfold receive_data.
    destruct (receive_data_switch (arrive c m)) as [again a] eqn:E.
    cbn [snd]. eapply settle_after_call. exact E.
Qed.

(** Progress is either one byte taken in a sync state or a whole frame
    taken, which ends the parse. *)
Lemma switch_true_shape (m m' : sensorimotor) :
  receive_data_switch m = (true, m') ->
  terminal m' = true \/
  ((syncstate m = sync0 \/ syncstate m = sync1) /\
   S (size (com m')) = size (com m)).
Proof.
  intro H. open_device m. unfold receive_data_switch in H. cbn in H.
  destruct ss.
  - right. split; [now left|].
    destruct q as [|b q]; cbn in H; [discriminate|].
    destruct (b =? 255)%Z; inversion H; subst; reflexivity.
  - right. split; [now right|].
    destruct q as [|b q]; cbn in H; [discriminate|].
    destruct (b =? 255)%Z; inversion H; subst; reflexivity.
  - left. destruct q as [|b q]; cbn in H; [discriminate|].
    destruct (b =? 128)%Z.
    + destruct (12 <? _)%nat; [|discriminate]. inversion H; subst.
      unfold receive_state_data.
      destruct (get_byte _) as [mid c].
      match goal with
      | |- terminal (with_syncstate (if ?b then _ else _) _) = true =>
          destruct b; reflexivity
      end.
    + destruct (b =? 225)%Z; [|discriminate].
      destruct (2 <? _)%nat; [|discriminate]. inversion H; subst.
      unfold receive_ping_response.
      destruct (get_byte _) as [mid c].
      match goal with
      | |- context [if ?b then completed else invalid] =>
          destruct b; reflexivity
      end.
  - discriminate.
  - discriminate.
Qed.

Lemma quiescent_sync_empty (m : sensorimotor) :
  receive_data_switch m = (false, m) ->
  syncstate m = sync0 \/ syncstate m = sync1 ->
  recv_queue (com m) = [].
Proof.
  unfold receive_data_switch, empty. intros H [Es | Es]; rewrite Es in H;
    destruct (recv_queue (com m)) as [|b q]; trivial;
    destruct (_ =? _)%Z; discriminate.
Qed.

(** When at most one byte arrives per call, a quiescent parser is
    quiescent again after the call. *)
Lemma quiescent_after_call (c : list Z) (m : sensorimotor) :
  quiescent m -> (length c <= 1)%nat ->
  quiescent (snd (receive_data c m)).
Proof.
  intros Hq Hc. destruct c as [|b [|b' c]]; [| |cbn in Hc; lia].
  - unfold quiescent in Hq. rewrite Hq. exact Hq.
  - apply quiescent_switch in Hq. apply quiescent_switch.
    unfold receive_data.
    destruct (receive_data_switch (arrive [b] m)) as [[|] a] eqn:E; cbn [snd].
    + destruct (switch_true_shape _ _ E) as [Ht | [Hs Hsz]].
      * now apply terminal_quiescent.
      * apply empty_quiescent.
        change (syncstate (arrive [b] m)) with (syncstate m) in Hs.
        pose proof (quiescent_sync_empty m Hq Hs) as He.
        rewrite size_arrive in Hsz. unfold size in Hsz. rewrite He in Hsz.
        cbn in Hsz. destruct (recv_queue (com a)); [reflexivity|].
        cbn in Hsz. lia.
    + eapply switch_false_quiescent. exact E.
Qed.

Lemma feed_app (pre post : list (list Z)) (m : sensorimotor) :
  feed (pre ++ post) m = feed post (feed pre m).
Proof. unfold feed. apply fold_left_app. Qed.

Lemma feed_quiescent (events : list (list Z)) :
  forall m : sensorimotor,
    quiescent m ->
    Forall (fun c => (length c <= 1)%nat) events ->
    quiescent (feed events m).
Proof.
  induction events as [|c events IH]; intros m Hq Hf.
  - exact Hq.
  - inversion Hf as [|? ? Hc Hrest]; subst.
    change (feed (c :: events) m)
      with (feed events (snd (receive_data c m))).
    apply IH; [|exact Hrest]. now apply quiescent_after_call.
Qed.

(** C7.  A parser at the start of a receive cycle ([sync0], nothing
    readable) that is called once per element of [events], each call
    finding at most one new byte and arbitrarily many calls finding none,
    ends in the same state (parser state, decoded Device State, channel)
    as the loop [while(receive_data());] run with all the bytes readable
    at once; that loop does exit; and every call that finds no new byte
    returns [false] ("no progress") and changes nothing.  This holds for
    every byte sequence, valid frames included. *)
Theorem partial_byte_robustness (events : list (list Z)) (m : sensorimotor) :
  syncstate m = sync0 ->
  recv_queue (com m) = [] ->
  Forall (fun c => (length c <= 1)%nat) events ->
  feed events m = while_receive_data (concat events) m /\
  receive_data [] (while_receive_data (concat events) m)
    = (false, while_receive_data (concat events) m) /\
  (forall pre post : list (list Z),
     events = pre ++ [] :: post ->
     receive_data [] (feed pre m) = (false, feed pre m)).
Proof.
  intros Hs He Hf.
  assert (Hq : quiescent m).
  { apply quiescent_switch. now apply empty_quiescent. }
  split; [|split].
  - rewrite <- feed_then_settle. symmetry. apply quiescent_settle.
    now apply feed_quiescent.
  - apply settle_quiescent.
  - intros pre post ->. apply Forall_app in Hf. destruct Hf as [Hpre _].
    now apply feed_quiescent.
Qed.

(** The parts of a receive cycle that leave the Device State alone. *)

(** While the parser has not reached [completed] or [invalid], no call
    has written to [data]. *)
Lemma switch_pending_keeps_data (m m' : sensorimotor) (again : bool) :
  receive_data_switch m = (again, m') ->
  is_pending m' = true ->
  data m' = data m /\ is_pending m = true.
Proof.
  intros H Hp. destruct again.
  - destruct (switch_true_shape _ _ H) as [Ht | [Hs _]].
    + unfold terminal in Ht. rewrite Hp in Ht. discriminate.
    + unfold receive_data_switch in H. unfold is_pending.
      destruct Hs as [Hs | Hs]; rewrite Hs in H |- *;
        (split; [|reflexivity]);
        destruct (empty (com m)); try discriminate;
        destruct (_ =? _)%Z; inversion H; reflexivity.
  - destruct (switch_false_cases _ _ H) as [-> | (_ & -> & _)].
    + now split.
    + discriminate.
Qed.

Lemma drain_pending_keeps_data (fuel : nat) :
  forall m : sensorimotor,
    is_pending (drain fuel m) = true ->
    data (drain fuel m) = data m /\ is_pending m = true.
Proof.
  induction fuel as [|fuel IH]; intros m Hp; [now split|].
  rewrite drain_S in *.
  destruct (receive_data_switch m) as [[|] m'] eqn:E.
  - destruct (IH m' Hp) as [Hd Hp'].
    destruct (switch_pending_keeps_data _ _ _ E Hp') as [Hd' Hp''].
    split; congruence.
  - exact (switch_pending_keeps_data _ _ _ E Hp).
Qed.

Lemma receive_loop_pending_keeps_data (fuel : nat) :
  forall (t_us timeout_us : Z) (arrivals : list (list Z)) (m : sensorimotor),
    is_pending (snd (receive_loop fuel t_us timeout_us arrivals m)) = true ->
    data (snd (receive_loop fuel t_us timeout_us arrivals m)) = data m.
Proof.
  induction fuel as [|fuel IH]; intros t_us timeout_us arrivals m Hp;
    cbn [receive_loop] in *.
  - cbn [snd] in *. unfold while_receive_data, settle in *.
    now destruct (drain_pending_keeps_data _ _ Hp).
  - destruct (_ && _) eqn:Ec.
    + rewrite (IH _ _ _ _ Hp).
      apply andb_true_iff in Ec. destruct Ec as [_ Ec].
      unfold while_receive_data, settle in *.
      now destruct (drain_pending_keeps_data _ _ Ec).
    + cbn [snd] in *. unfold while_receive_data, settle in *.
      now destruct (drain_pending_keeps_data _ _ Hp).
Qed.

(** A receive cycle that ends with the parser still pending (it timed
    out before a frame was complete) has not touched the Device State. *)
Lemma pending_cycle_keeps_data (timeout_us : Z) (arrivals : list (list Z))
    (m : sensorimotor) :
  is_pending (snd (receive_response timeout_us arrivals m)) = true ->
  data (snd (receive_response timeout_us arrivals m)) = data m.
Proof.
  unfold receive_response.
  destruct (receive_loop _ _ _ _ _) as [t_us m'] eqn:E. cbn [snd].
  intro Hp.
  change (data m' = data (with_syncstate sync0 m)).
  replace m' with
    (snd (receive_loop (Z.to_nat timeout_us) 0 timeout_us arrivals
            (with_syncstate sync0 m))) by now rewrite E.
  apply receive_loop_pending_keeps_data. rewrite E. exact Hp.
Qed.

(** A state-data frame for another device is dropped after its id byte:
    the Device State is untouched and the parse is [invalid]. *)
Lemma mismatched_id_keeps_data (m : sensorimotor) (mid : Z) (rest : list Z) :
  recv_queue (com m) = 0x80%Z :: mid :: rest ->
  (mid =? motor_id m)%Z = false ->
  data (receive_state_data m) = data m /\
  syncstate (receive_state_data m) = invalid.
Proof.
  intros Hq Hne. open_device m. cbn in Hq, Hne. subst q.
  run_parser. rewrite Hne. run_parser.
  rewrite ?(Z.eqb_sym id mid), ?Hne. split; reflexivity.
Qed.

(** A state-data frame for this device is decoded into [data] before its
    checksum is looked at: the position is overwritten whatever
    [is_checksum_ok] says afterwards. *)
Lemma state_data_written_before_checksum (m : sensorimotor)
    (msb lsb : Z) (rest : list Z) :
  recv_queue (com m) = 0x80%Z :: motor_id m :: msb :: lsb :: rest ->
  position (data (receive_state_data m))
  = uint_to_sc ((msb * 256 + lsb) mod 65536) * inject_Z (direction m).
Proof.
  intro Hq. open_device m. cbn in Hq. subst q.
  run_parser. rewrite Z.eqb_refl. reflexivity.
Qed.
End ParserProperties.

(** C7 on the scenario frame of the specification, delivered one byte
    per call with idle calls in between, for device 5 and the additive
    checksum: both ways of feeding end [completed] with the decoded
    values of the scenario. *)
Lemma partial_byte_robustness_witness :
  @feed additive_checksum scenario_events motor5
  = @while_receive_data additive_checksum scenario_frame motor5 /\
  syncstate (@feed additive_checksum scenario_events motor5) = completed /\
  temperature (data (@feed additive_checksum scenario_events motor5)) == 100.
Proof.
  destruct (@partial_byte_robustness additive_checksum scenario_events motor5)
    as [T _].
  - reflexivity.
  - reflexivity.
  - unfold scenario_events. repeat constructor.
  - split; [exact T|]. split; reflexivity.
Defined.

(** C1 fails on the code.  A state-data frame addressed to device 5 whose
    checksum byte is wrong is received in one cycle: the cycle ends
    [invalid] and is counted as an error, yet the Device State has been
    overwritten with the values of the rejected frame (position 0.5
    instead of 0). *)
Theorem checksum_failed_frame_overwrites_data :
  let r := @receive_response additive_checksum max_response_time_us
             [corrupted_frame] motor5 in
  syncstate (snd r) = invalid /\
  faulted (fst r) = true /\
  errors (fst r) = 1%Z /\
  position (data motor5) == 0 /\
  position (data (snd r)) == 0.5 /\
  temperature (data (snd r)) == 100 /\
  data (snd r) <> data motor5.
Proof.
  cbv zeta. repeat split; try (vm_compute; reflexivity).
  intro H. apply (f_equal position) in H. vm_compute in H. discriminate H.
Qed.

(** The same frame with its proper checksum byte is accepted. *)
Lemma well_formed_frame_completes :
  let r := @receive_response additive_checksum max_response_time_us
             [scenario_frame] motor5 in
  syncstate (snd r) = completed /\ faulted (fst r) = false /\
  current (data (snd r)) == 100 * current_scale /\
  voltage_supply (data (snd r)) == 50 * voltage_scale.
Proof.
  cbv zeta. repeat split; vm_compute; reflexivity.
Qed.

(** With nothing arriving the cycle times out after 1000 rounds, the
    parser is still in [sync0] and the Device State is as before. *)
Lemma silent_cycle_times_out :
  let r := @receive_response additive_checksum max_response_time_us
             [] motor5 in
  syncstate (snd r) = sync0 /\ timeouts (fst r) = 1%Z /\
  faulted (fst r) = true /\ data (snd r) = data motor5.
Proof.
  cbv zeta. repeat split; vm_compute; reflexivity.
Qed.

(** * Further properties of the code *)

(** ** The numeric helpers *)

(** X1.  [pos] and [neg] split a value into its non-negative and its
    non-positive part, and [posneg value p n] is the piecewise linear map
    with slope [p] on the non-negative and slope [n] on the negative
    values. *)
Theorem posneg_piecewise (value p n : Q) :
  0 <= pos value /\ neg value <= 0 /\
  pos value + neg value == value /\
  posneg value p n == if Qle_bool 0 value then p * value else n * value.
Proof.
  unfold posneg, pos, neg, std_max, std_min.
  destruct (Qltb 0 value) eqn:E1, (Qltb value 0) eqn:E2;
    try apply Qltb_true in E1; try apply Qltb_true in E2;
    try apply Qltb_false in E1; try apply Qltb_false in E2;
    destruct (Qle_bool 0 value) eqn:E;
    try apply Qle_bool_iff in E; try apply Qle_bool_false in E;
    (split; [|split; [|split]]); try lra.
  all: assert (Hv : value == 0) by lra; rewrite Hv; ring.
Qed.

Lemma uint_to_sc_as_fraction (word : Z) :
  uint_to_sc word == inject_Z word * (1 # 512) - 1.
Proof.
  unfold uint_to_sc. unfold Z.sub. rewrite inject_Z_plus, inject_Z_opp.
  change (inject_Z 512) with 512. field.
Qed.

(** X2.  [uint_to_sc] is increasing, is inverted by
    [word = 512 * sc + 512], and maps the 10-bit words [0 .. 1023] into
    [[-1, 1)], with 512 the zero point. *)
Theorem uint_to_sc_scale (word : Z) :
  inject_Z word == 512 * uint_to_sc word + 512 /\
  (forall other : Z,
     (word <= other)%Z -> uint_to_sc word <= uint_to_sc other) /\
  ((0 <= word <= 1023)%Z -> - (1) <= uint_to_sc word < 1) /\
  ((word < 512)%Z -> uint_to_sc word < 0) /\
  ((512 <= word)%Z -> 0 <= uint_to_sc word).
Proof.
  pose proof (uint_to_sc_as_fraction word) as E.
  split; [rewrite E; ring|]. split; [|split; [|split]].
  - intros other H. rewrite E, (uint_to_sc_as_fraction other).
    rewrite Zle_Qle in H. lra.
  - intros [H0 H1]. rewrite E. rewrite Zle_Qle in H0, H1.
    change (inject_Z 0) with 0 in H0.
    change (inject_Z 1023) with 1023 in H1. lra.
  - intro H. rewrite E. rewrite Zlt_Qlt in H.
    change (inject_Z 512) with 512 in H. lra.
  - intro H. rewrite E. rewrite Zle_Qle in H.
    change (inject_Z 512) with 512 in H. lra.
Qed.

(** X2 on the largest 10-bit word and on the mid-scale word. *)
Lemma uint_to_sc_scale_witness :
  - (1) <= uint_to_sc 1023 < 1 /\ 0 <= uint_to_sc 512 /\
  uint_to_sc 100 < 0.
Proof.
  destruct (uint_to_sc_scale 1023) as (_ & _ & T & _).
  destruct (uint_to_sc_scale 512) as (_ & _ & _ & _ & U).
  destruct (uint_to_sc_scale 100) as (_ & _ & _ & V & _).
  split; [apply T; lia|]. split; [apply U; lia | apply V; lia].
Defined.

(** ** The control law *)

(** X3.  In csl mode below the cutoff the commanded voltage has
    magnitude at most 0.75, and the stored target equals it. *)
Theorem csl_output_bounded (m : sensorimotor) :
  controller m = Controller_t.csl ->
  Qabs (position (data m)) < phi_disable m ->
  - 0.75 <= output_voltage (data (execute_controller m)) <= 0.75 /\
  target_voltage (execute_controller m)
  = output_voltage (data (execute_controller m)).
Proof.
  intros Hc Hcut. apply cutoff_false in Hcut.
  rewrite execute_controller_csl by assumption. cbn.
  split; [|reflexivity].
  match goal with
  | |- _ <= 0.75 * clip ?x clip_default <= _ =>
      pose proof (clip_range x clip_default) as Hu
  end.
  unfold clip_default in *. assert (H1 : 0 <= 1) by lra.
  specialize (Hu H1). lra.
Qed.

Lemma csl_output_bounded_witness :
  - 0.75 <= output_voltage (data (execute_controller csl_device)) <= 0.75.
Proof.
  apply (csl_output_bounded csl_device); reflexivity.
Defined.

(** X4.  After any invocation of [execute_controller], in any mode and
    from any state, the integral accumulator lies in [[-1, 1]]. *)
Theorem accumulator_bounded (m : sensorimotor) :
  - (1) <= err_int (execute_controller m) <= 1.
Proof.
  destruct (cutoff m) eqn:Hcut.
  - rewrite execute_controller_cut by assumption. cbn. lra.
  - destruct (controller m) eqn:Hc.
    + rewrite execute_controller_other by congruence. cbn. lra.
    + rewrite execute_controller_other by congruence. cbn. lra.
    + rewrite execute_controller_position by assumption. cbn.
      apply (clip_range _ 1). lra.
    + rewrite execute_controller_csl by assumption. cbn. lra.
Qed.

(** X5.  In voltage mode (and in mode [none]) the engine computes no
    voltage: what a caller stored with [set_target_voltage] is still the
    target and the output after [execute_controller], whether or not the
    cutoff fires. *)
Theorem voltage_mode_passes_target_through (m : sensorimotor) (v : Q) :
  controller m = Controller_t.voltage \/ controller m = Controller_t.none ->
  target_voltage (execute_controller (set_target_voltage v m)) = v /\
  output_voltage (data (execute_controller (set_target_voltage v m))) = v.
Proof.
  intro Hc.
  set (k := set_target_voltage v m).
  assert (Hk : controller k = Controller_t.voltage \/
               controller k = Controller_t.none) by exact Hc.
  destruct (cutoff k) eqn:Hcut.
  - rewrite execute_controller_cut by assumption. split; reflexivity.
  - rewrite execute_controller_other
      by (try assumption; destruct Hk as [Hk|Hk]; rewrite Hk; discriminate).
    split; reflexivity.
Qed.

Lemma voltage_mode_passes_target_through_witness :
  output_voltage
    (data (execute_controller
             (set_target_voltage 0.25
                (set_controller_type Controller_t.voltage motor5))))
  = 0.25.
Proof.
  apply (voltage_mode_passes_target_through
           (set_controller_type Controller_t.voltage motor5) 0.25).
  left. reflexivity.
Defined.

(** What [execute_controller] leaves alone. *)
Lemma execute_controller_untouched (m : sensorimotor) :
  let m' := execute_controller m in
  motor_id m' = motor_id m /\ com m' = com m /\
  do_request m' = do_request m /\ is_responding m' = is_responding m /\
  direction m' = direction m /\
  position (data m') = position (data m) /\
  current (data m') = current (data m) /\
  voltage_backemf (data m') = voltage_backemf (data m) /\
  voltage_supply (data m') = voltage_supply (data m) /\
  temperature (data m') = temperature (data m) /\
  target_position m' = target_position m /\
  target_csl_mode m' = target_csl_mode m /\
  target_csl_fb m' = target_csl_fb m /\
  limit_lo m' = limit_lo m /\ limit_hi m' = limit_hi m /\
  Kp m' = Kp m /\ phi_disable m' = phi_disable m /\
  syncstate m' = syncstate m /\ statistics m' = statistics m.
Proof.
  cbv zeta. destruct (cutoff m) eqn:Hcut.
  - rewrite execute_controller_cut by assumption. cbn. repeat split.
  - destruct (controller m) eqn:Hc.
    + rewrite execute_controller_other by congruence. cbn. repeat split.
    + rewrite execute_controller_other by congruence. cbn. repeat split.
    + rewrite execute_controller_position by assumption. cbn. repeat split.
    + rewrite execute_controller_csl by assumption. cbn. repeat split.
Qed.

(** X6.  [execute_controller] writes nothing but the mode, the two
    controller states and the voltage target: the measured values, the
    channel, the parser state, the statistics, the identity and every
    gain, limit and other target are as before. *)
Theorem execute_controller_preserves (m : sensorimotor) :
  let m' := execute_controller m in
  motor_id m' = motor_id m /\ com m' = com m /\
  do_request m' = do_request m /\ is_responding m' = is_responding m /\
  direction m' = direction m /\
  position (data m') = position (data m) /\
  current (data m') = current (data m) /\
  voltage_backemf (data m') = voltage_backemf (data m) /\
  voltage_supply (data m') = voltage_supply (data m) /\
  temperature (data m') = temperature (data m) /\
  target_position m' = target_position m /\
  target_csl_mode m' = target_csl_mode m /\
  target_csl_fb m' = target_csl_fb m /\
  limit_lo m' = limit_lo m /\ limit_hi m' = limit_hi m /\
  Kp m' = Kp m /\ phi_disable m' = phi_disable m /\
  syncstate m' = syncstate m /\ statistics m' = statistics m.
Proof.
  exact (execute_controller_untouched m).
Qed.

(** Repeated invocations in csl mode below the cutoff stay there and
    see the same measurements and targets. *)
Lemma csl_iterations_stay (m : sensorimotor) :
  controller m = Controller_t.csl -> cutoff m = false ->
  forall k : nat,
    let mk := Nat.iter k execute_controller m in
    controller mk = Controller_t.csl /\ cutoff mk = false /\
    position (data mk) = position (data m) /\
    limit_lo mk = limit_lo m /\ limit_hi mk = limit_hi m /\
    target_csl_mode mk = target_csl_mode m /\
    target_csl_fb mk = target_csl_fb m.
Proof.
  intros Hc Hcut k. cbv zeta. induction k as [|k IH].
  - repeat split; assumption.
  - change (Nat.iter (S k) execute_controller m)
      with (execute_controller (Nat.iter k execute_controller m)).
    destruct IH as (Ic & Icut & Ipos & Ilo & Ihi & Imode & Ifb).
    set (mk := Nat.iter k execute_controller m) in *.
    pose proof (execute_controller_untouched mk) as F. cbv zeta in F.
    destruct F as (_ & _ & _ & _ & _ & Fp & _ & _ & _ & _ & _ & Fm & Ff
                   & Flo & Fhi & _ & Fphi & _).
    split; [|split; [|split; [|split; [|split; [|split]]]]]; try congruence.
    + rewrite execute_controller_mode. unfold active_mode. now rewrite Icut.
    + unfold cutoff in *. now rewrite Fp, Fphi.
Qed.

Lemma csl_gains_vanish (m : sensorimotor) :
  target_csl_mode m == 0 ->
  code_gi m == 0 /\
  target_csl_fb m * pos (clip (target_csl_mode m) clip_default) == 0.
Proof.
  intro H0.
  assert (Hm : clip (target_csl_mode m) clip_default == 0).
  { rewrite H0. reflexivity. }
  split.
  - unfold code_gi. rewrite posneg_gain.
    destruct (Qle_bool 0 _); rewrite Hm; ring.
  - rewrite pos_Qmax, Hm, Q.max_id. ring.
Qed.

Lemma csl_zero_step (m : sensorimotor) :
  controller m = Controller_t.csl -> cutoff m = false ->
  target_csl_mode m == 0 ->
  z (execute_controller m) == 0 /\
  (z m == 0 -> output_voltage (data (execute_controller m)) == 0).
Proof.
  intros Hc Hcut H0. destruct (csl_gains_vanish m H0) as [Hgi Hgf].
  rewrite execute_controller_csl by assumption. cbn.
  fold (code_gi m).
  split.
  - set (u := clip (_ + _) clip_default). rewrite Hgi, Hgf. ring.
  - intro Hz.
    match goal with
    | |- 0.75 * clip ?x clip_default == 0 =>
        assert (Hx : x == 0)
    end.
    { destruct (Qltb (limit_hi m) (position (data m)));
        destruct (Qltb (position (data m)) (limit_lo m));
        rewrite ?std_max_Qmax, ?std_min_Qmin, Hgi, Hz;
        ring_simplify (0 * position (data m));
        rewrite ?Q.min_id, ?Q.max_id; ring. }
    rewrite Hx. reflexivity.
Qed.

(** X7.  Csl mode with [target_csl_mode] at 0 releases the motor: both
    gains vanish, the first invocation brings [z] to 0, and from the
    second invocation on the commanded voltage is 0, wherever the
    position is below the cutoff. *)
Theorem csl_mode_zero_releases (m : sensorimotor) :
  controller m = Controller_t.csl ->
  Qabs (position (data m)) < phi_disable m ->
  target_csl_mode m == 0 ->
  forall n : nat,
    z (Nat.iter (S n) execute_controller m) == 0 /\
    output_voltage (data (Nat.iter (S (S n)) execute_controller m)) == 0.
Proof.
  intros Hc Hcut H0 n. apply cutoff_false in Hcut.
  assert (Hz : forall k, z (Nat.iter (S k) execute_controller m) == 0).
  { intro k.
    change (Nat.iter (S k) execute_controller m)
      with (execute_controller (Nat.iter k execute_controller m)).
    destruct (csl_iterations_stay m Hc Hcut k)
      as (Ic & Icut & _ & _ & _ & Im & _).
    apply csl_zero_step; try assumption. now rewrite Im. }
  split; [apply Hz|].
  change (Nat.iter (S (S n)) execute_controller m)
    with (execute_controller (Nat.iter (S n) execute_controller m)).
  destruct (csl_iterations_stay m Hc Hcut (S n))
    as (Ic & Icut & _ & _ & _ & Im & _).
  apply csl_zero_step; try assumption.
  - now rewrite Im.
  - apply Hz.
Qed.

(** X7 at the csl device with its mode set to 0 and [z] at 3. *)
Lemma csl_mode_zero_releases_witness :
  output_voltage
    (data (Nat.iter 2 execute_controller
             (with_z 3 (set_target_csl_mode 0 csl_device)))) == 0.
Proof.
  apply (csl_mode_zero_releases (with_z 3 (set_target_csl_mode 0 csl_device)));
    reflexivity.
Defined.

(** ** The encoder and [send_command] *)

Lemma round_near (x : Q) :
  0 <= x -> x - (1 # 2) < inject_Z (round x) <= x + (1 # 2).
Proof.
  intro H. unfold round. apply Qle_bool_iff in H. rewrite H.
  pose proof (Qfloor_le (x + (1 # 2))) as Hlo.
  pose proof (Qlt_floor (x + (1 # 2))) as Hhi.
  rewrite inject_Z_plus in Hhi. change (inject_Z 1) with 1 in Hhi.
  split; lra.
Qed.

Lemma clip_sign (v bound : Q) :
  0 < bound ->
  (0 <= clip v bound <-> 0 <= v) /\ (clip v bound <= 0 <-> v <= 0).
Proof.
  intro Hb. unfold clip.
  destruct (Qltb bound v) eqn:E1.
  - apply Qltb_true in E1. split; split; lra.
  - apply Qltb_false in E1. destruct (Qltb v (- bound)) eqn:E2.
    + apply Qltb_true in E2. split; split; lra.
    + split; split; lra.
Qed.

Lemma product_sign (a b d : Q) :
  (0 <= a <-> 0 <= b) -> (a <= 0 <-> b <= 0) ->
  (0 <= a * d <-> 0 <= b * d).
Proof.
  intros Hp Hn.
  assert (Key : forall x y : Q,
            (0 <= x -> 0 <= y) -> (x <= 0 -> y <= 0) ->
            0 <= x * d -> 0 <= y * d).
  { intros x y Hxp Hxn H.
    destruct (Qlt_le_dec 0 d) as [Hd | Hd].
    - destruct (Qlt_le_dec x 0) as [Hx | Hx].
      + assert (0 < (- x) * d) by (apply Qmult_lt_0_compat; lra). lra.
      + apply Qmult_le_0_compat; [auto | lra].
    - destruct (Qlt_le_dec 0 x) as [Hx | Hx].
      + destruct (Qeq_dec d 0) as [Hd0 | Hd0].
        * rewrite Hd0. lra.
        * assert (0 < x * (- d)) by (apply Qmult_lt_0_compat; lra). lra.
      + assert (0 <= (- y) * (- d))
          by (apply Qmult_le_0_compat; [specialize (Hxn Hx)|]; lra).
        lra. }
  split; apply Key; tauto.
Qed.

Lemma clip_saturates (v : Q) (dir : Z) :
  dir = 1%Z \/ dir = (-1)%Z -> 0.5 <= Qabs v ->
  Qabs (clip v 0.5 * inject_Z dir) == 0.5.
Proof.
  intros Hd Hv.
  assert (Hc : Qabs (clip v 0.5) == 0.5).
  { unfold clip. destruct (Qltb 0.5 v) eqn:E1; [reflexivity|].
    apply Qltb_false in E1. destruct (Qltb v _) eqn:E2; [reflexivity|].
    apply Qltb_false in E2.
    revert Hv. apply Qabs_case; intros; lra. }
  rewrite Qabs_Qmult, Hc. destruct Hd as [-> | ->]; reflexivity.
Qed.

(** The two roundings of the encoder move the product by less than
    [2 ^ -45]: the corrected voltage is off by at most [2 ^ -54], the
    product below 128 by at most [2 ^ -46]. *)
Lemma encoder_product_error (voltage : Q) (dir : Z) :
  dir = 1%Z \/ dir = (-1)%Z ->
  Qabs (double_mul (Qabs (double_mul (clip voltage 0.5) (inject_Z dir))) 255
        - Qabs (clip voltage 0.5 * inject_Z dir) * 255)
  <= pow2 (-45).
Proof.
  intro Hd. unfold double_mul.
  set (x := clip voltage 0.5 * inject_Z dir).
  pose proof (corrected_voltage_magnitude voltage dir Hd) as Hx.
  fold x in Hx.
  pose proof (double_voltage_bound x Hx) as Hdx.
  assert (E1 : Qabs (to_double x - x) <= pow2 (-54)).
  { apply (to_double_error x (-1)).
    apply Qle_trans with 0.5; [exact Hx | vm_compute; discriminate]. }
  set (d := to_double x) in *.
  pose proof (Qabs_nonneg d) as Hd0.
  assert (E2 : Qabs (to_double (Qabs d * 255) - Qabs d * 255) <= pow2 (-46)).
  { apply (to_double_error (Qabs d * 255) 7).
    rewrite Qabs_pos by lra.
    apply Qle_trans with (0.5 * 255); [lra | vm_compute; discriminate]. }
  set (p := to_double (Qabs d * 255)) in *.
  pose proof (Qabs_triangle_reverse d x) as T1.
  pose proof (Qabs_triangle_reverse x d) as T2.
  rewrite (Qabs_Qminus x d) in T2.
  set (a := Qabs d) in *. set (b := Qabs x) in *.
  set (g := Qabs (d - x)) in *.
  apply Qabs_Qle_condition in E2.
  change (pow2 (-54)) with (1 # 18014398509481984) in E1.
  change (pow2 (-46)) with (1 # 70368744177664) in E2.
  change (pow2 (-45)) with (1 # 35184372088832).
  apply Qabs_Qle_condition. split; lra.
Qed.

Section EncoderProperties.
Context {CA : checksum_algorithm}.

(** X8.  For a direction of [+1] or [-1] the payload byte of the
    set-voltage frame is within half a step, plus the rounding of the
    two products, of [255 * |v'|], [v'] being the requested voltage
    clamped to [[-0.5, 0.5]] and corrected by the direction: the
    encoding loses hardly more than 1/510 of full scale. *)
Theorem set_voltage_quantisation (voltage : Q) (m : sensorimotor) :
  direction m = 1%Z \/ direction m = (-1)%Z ->
  exists cmd pwm chk : Z,
    send_queue (com (enqueue_command_set_voltage voltage m)) =
    send_queue (com m) ++ [0xFF%Z; 0xFF%Z; cmd; motor_id m; pwm; chk] /\
    Qabs (inject_Z pwm
          - 255 * Qabs (spec_corrected_voltage voltage (direction m)))
    <= (1 # 2) + pow2 (-45).
Proof.
  intro Hd.
  pose proof (enqueue_command_set_voltage_bytes voltage m) as E.
  cbv zeta in E. unfold set_voltage_frame in E.
  eexists _, _, _. split; [exact E|].
  pose proof (pwm_bound voltage (direction m) Hd) as Hb.
  unfold to_uint8. rewrite Z.mod_small by lia.
  rewrite <- (clip_corrected voltage (direction m)).
  pose proof (encoder_product_error voltage (direction m) Hd) as Hp.
  pose proof (double_voltage_bound _
                (corrected_voltage_magnitude voltage (direction m) Hd)) as Hv.
  fold (double_mul (clip voltage 0.5) (inject_Z (direction m))) in Hv.
  pose proof (Qabs_nonneg (double_mul (clip voltage 0.5)
                             (inject_Z (direction m)))) as H0.
  destruct (double_product_bound _ H0 Hv) as [P0 _].
  set (p := double_mul
              (Qabs (double_mul (clip voltage 0.5) (inject_Z (direction m))))
              255) in *.
  set (x := Qabs (clip voltage 0.5 * inject_Z (direction m))) in *.
  pose proof (round_near p P0) as Hr.
  apply Qabs_Qle_condition in Hp.
  change (pow2 (-45)) with (1 # 35184372088832) in *.
  apply Qabs_Qle_condition. split; lra.
Qed.

(** X9.  The command byte of the set-voltage frame is 0xB0 exactly when
    the requested voltage times the direction is non-negative (clamping
    does not change the sign) and 0xB1 otherwise; a request of magnitude
    0.5 or more is sent as payload 128 when the direction is [+1] or
    [-1], and a request of 0 as payload 0. *)
Theorem set_voltage_sign_and_saturation (voltage : Q) (m : sensorimotor) :
  exists cmd pwm chk : Z,
    send_queue (com (enqueue_command_set_voltage voltage m)) =
    send_queue (com m) ++ [0xFF%Z; 0xFF%Z; cmd; motor_id m; pwm; chk] /\
    (cmd = 0xB0%Z \/ cmd = 0xB1%Z) /\
    (cmd = 0xB0%Z <-> 0 <= voltage * inject_Z (direction m)) /\
    (direction m = 1%Z \/ direction m = (-1)%Z ->
     0.5 <= Qabs voltage -> pwm = 128%Z) /\
    (voltage == 0 -> pwm = 0%Z).
Proof.
  pose proof (enqueue_command_set_voltage_bytes voltage m) as E.
  cbv zeta in E. unfold set_voltage_frame in E.
  assert (Hb : Qle_bool 0 (double_mul (clip voltage 0.5)
                             (inject_Z (direction m)))
               = Qle_bool 0 (clip voltage 0.5 * inject_Z (direction m)))
    by apply to_double_nonneg_bool.
  rewrite Hb in E. clear Hb.
  eexists _, _, _. split; [exact E|].
  assert (H05 : 0 < 0.5) by reflexivity.
  destruct (clip_sign voltage 0.5 H05) as [Sp Sn].
  pose proof (product_sign (clip voltage 0.5) voltage
                (inject_Z (direction m)) Sp Sn) as Hs.
  unfold double_mul.
  split; [|split; [|split]].
  - destruct (Qle_bool 0 _); [left | right]; reflexivity.
  - destruct (Qle_bool 0 (clip voltage 0.5 * inject_Z (direction m))) eqn:Eb.
    + apply Qle_bool_iff in Eb. split; [intros _; apply Hs, Eb | reflexivity].
    + split; [discriminate|]. intro H. apply Hs in H.
      apply Qle_bool_iff in H. congruence.
  - intros Hd Hv.
    pose proof (clip_saturates voltage (direction m) Hd Hv) as Hc.
    revert Hc. apply Qabs_case; intros _ Hc.
    + rewrite (to_double_ext _ _ Hc). vm_compute. reflexivity.
    + assert (Hn : clip voltage 0.5 * inject_Z (direction m) == - (0.5))
        by lra.
      rewrite (to_double_ext _ _ Hn). vm_compute. reflexivity.
  - intro H0.
    assert (Hz : clip voltage 0.5 * inject_Z (direction m) == 0).
    { rewrite H0. unfold clip. cbn. ring. }
    rewrite (to_double_ext _ _ Hz). vm_compute. reflexivity.
Qed.

End EncoderProperties.

(** X8 and X9 at the default device. *)
Lemma set_voltage_quantisation_witness :
  exists cmd pwm chk : Z,
    send_queue
      (com (@enqueue_command_set_voltage additive_checksum double_0_3 motor5))
    = [0xFF%Z; 0xFF%Z; cmd; 5%Z; pwm; chk] /\
    Qabs (inject_Z pwm - 255 * Qabs (spec_corrected_voltage double_0_3 1))
    <= (1 # 2) + pow2 (-45).
Proof.
  apply (@set_voltage_quantisation additive_checksum double_0_3 motor5).
  left. reflexivity.
Defined.

Lemma set_voltage_sign_and_saturation_witness :
  exists cmd pwm chk : Z,
    send_queue (com (@enqueue_command_set_voltage additive_checksum (- (3)) motor5)) =
    [0xFF%Z; 0xFF%Z; cmd; 5%Z; pwm; chk] /\ cmd = 0xB1%Z /\ pwm = 128%Z.
Proof.
  destruct (@set_voltage_sign_and_saturation additive_checksum (- (3)) motor5)
    as (cmd & pwm & chk & E & [C | C] & S & P & _).
  - exfalso. apply S in C. vm_compute in C. apply C. reflexivity.
  - exists cmd, pwm, chk. split; [exact E|]. split; [exact C|].
    apply P; [left; reflexivity | vm_compute; discriminate].
Defined.

Section SendProperties.
Context {CA : checksum_algorithm}.

(** The four-byte frame of a command without payload. *)
Lemma data_request_bytes (m : sensorimotor) :
  send_queue (com (enqueue_command_data_request m)) =
  send_queue (com m) ++
    [0xFF%Z; 0xFF%Z; 0xC0%Z; motor_id m;
     checksum_byte (fold_left checksum_add [0xC0%Z; motor_id m] checksum_reset)].
Proof.
  unfold enqueue_command_data_request. cbn.
  rewrite <- !app_assoc. reflexivity.
Qed.

Lemma set_voltage_keeps_inbound (voltage : Q) (m : sensorimotor) :
  recv_queue (com (enqueue_command_set_voltage voltage m))
  = recv_queue (com m).
Proof.
  unfold enqueue_command_set_voltage.
  destruct (Qle_bool 0 _); reflexivity.
Qed.

(** The bytes [send_command] hands to the channel are the send queue as
    the encoder of the current mode leaves it. *)
Lemma send_command_wire (stale : list Z) (m : sensorimotor) :
  snd (fst (send_command stale m)) =
  send_queue
    (com (match controller m with
          | Controller_t.none => enqueue_command_data_request m
          | _ => enqueue_command_set_voltage (target_voltage m) m
          end)).
Proof.
  unfold send_command.
  destruct (controller m); reflexivity.
Qed.

(** [send_command] appends to the inbound queue and leaves the rest of
    the object alone. *)
Lemma send_command_state (stale : list Z) (m : sensorimotor) :
  let m' := snd (send_command stale m) in
  recv_queue (com m') = recv_queue (com m) ++ stale /\
  controller m' = controller m /\ data m' = data m /\
  target_voltage m' = target_voltage m /\
  syncstate m' = syncstate m /\ statistics m' = statistics m /\
  is_responding m' = is_responding m /\
  motor_id m' = motor_id m /\ direction m' = direction m.
Proof.
  cbv zeta. unfold send_command.
  destruct (controller m) eqn:Hc;
    cbn -[enqueue_command_data_request enqueue_command_set_voltage];
    rewrite ?set_voltage_keeps_inbound; repeat split; exact Hc.
Qed.

(** X10.  [send_command] hands to the channel what was still enqueued
    followed by exactly one frame: the data request when the mode is
    [none], the set-voltage frame of the stored [target_voltage] in every
    other mode.  It makes the stale inbound bytes readable and touches
    neither the mode, the voltage target, the Device State, the parser
    state, the statistics nor the liveness flag. *)
Theorem send_command_frame (stale : list Z) (m : sensorimotor) :
  let wire := snd (fst (send_command stale m)) in
  let m' := snd (send_command stale m) in
  (exists frame : list Z, wire = send_queue (com m) ++ frame /\
     (length frame = 5 \/ length frame = 6)%nat) /\
  (controller m = Controller_t.none ->
   wire = send_queue (com (enqueue_command_data_request m))) /\
  (controller m <> Controller_t.none ->
   wire =
   send_queue (com (enqueue_command_set_voltage (target_voltage m) m))) /\
  recv_queue (com m') = recv_queue (com m) ++ stale /\
  controller m' = controller m /\ data m' = data m /\
  target_voltage m' = target_voltage m /\
  syncstate m' = syncstate m /\ statistics m' = statistics m /\
  is_responding m' = is_responding m.
Proof.
  cbv zeta. rewrite send_command_wire.
  pose proof (send_command_state stale m) as K. cbv zeta in K.
  destruct K as (K1 & K2 & K3 & K4 & K5 & K6 & K7 & _).
  split; [|split; [|split]].
  - destruct (controller m).
    + rewrite data_request_bytes. eexists. split; [reflexivity|].
      left. reflexivity.
    + rewrite enqueue_command_set_voltage_bytes. eexists.
      split; [reflexivity|]. right. reflexivity.
    + rewrite enqueue_command_set_voltage_bytes. eexists.
      split; [reflexivity|]. right. reflexivity.
    + rewrite enqueue_command_set_voltage_bytes. eexists.
      split; [reflexivity|]. right. reflexivity.
  - intros ->. reflexivity.
  - intro H. destruct (controller m); [congruence | reflexivity ..].
  - repeat split; assumption.
Qed.

(** X11.  Once the position is beyond [phi_disable], the command sent
    after [execute_controller] is the data request, whatever mode and
    voltage target were set: no voltage is commanded. *)
Theorem cutoff_sends_data_request (stale : list Z) (m : sensorimotor) :
  phi_disable m <= Qabs (position (data m)) ->
  snd (fst (send_command stale (execute_controller m))) =
  send_queue (com m) ++
    [0xFF%Z; 0xFF%Z; 0xC0%Z; motor_id m;
     checksum_byte (fold_left checksum_add [0xC0%Z; motor_id m] checksum_reset)].
Proof.
  intro H. apply cutoff_true in H.
  rewrite send_command_wire.
  assert (Hc : controller (execute_controller m) = Controller_t.none)
    by (rewrite execute_controller_cut by assumption; reflexivity).
  rewrite Hc, data_request_bytes.
  rewrite execute_controller_cut by assumption. reflexivity.
Qed.

(** X12.  Below the cutoff, in position or csl mode, the frame sent after
    [execute_controller] is the set-voltage frame of the voltage the
    engine has just computed ([output_voltage]); in voltage mode it is
    the frame of the voltage the caller stored. *)
Theorem commanded_frame_carries_output (stale : list Z) (m : sensorimotor) :
  Qabs (position (data m)) < phi_disable m ->
  (controller m = Controller_t.position \/ controller m = Controller_t.csl ->
   snd (fst (send_command stale (execute_controller m))) =
   send_queue
     (com (enqueue_command_set_voltage
             (output_voltage (data (execute_controller m)))
             (execute_controller m))))
  /\
  (controller m = Controller_t.voltage ->
   snd (fst (send_command stale (execute_controller m))) =
   send_queue
     (com (enqueue_command_set_voltage (target_voltage m)
             (execute_controller m)))).
Proof.
  intro Hcut.
  assert (T : controller (execute_controller m) <> Controller_t.none ->
              snd (fst (send_command stale (execute_controller m))) =
              send_queue
                (com (enqueue_command_set_voltage
                        (target_voltage (execute_controller m))
                        (execute_controller m)))).
  { intro Hn. rewrite send_command_wire.
    destruct (controller (execute_controller m));
      [congruence | reflexivity ..]. }
  pose proof (execute_controller_mode m) as Hm.
  unfold active_mode in Hm. rewrite (proj2 (cutoff_false m) Hcut) in Hm.
  apply cutoff_false in Hcut.
  split.
  - intro Hc. rewrite T by (rewrite Hm; destruct Hc as [-> | ->]; discriminate).
    assert (E : target_voltage (execute_controller m)
                = output_voltage (data (execute_controller m))).
    { destruct Hc as [Hc | Hc].
      - rewrite execute_controller_position by assumption. reflexivity.
      - rewrite execute_controller_csl by assumption. reflexivity. }
    now rewrite E.
  - intro Hc. rewrite T by (rewrite Hm, Hc; discriminate).
    assert (E : target_voltage (execute_controller m) = target_voltage m).
    { rewrite execute_controller_other by (try assumption; congruence).
      reflexivity. }
    now rewrite E.
Qed.

End SendProperties.

(** X10 on the fresh device (mode [none]) and on the position device. *)
Lemma send_command_frame_witness :
  snd (fst (@send_command additive_checksum [] motor5))
  = [0xFF; 0xFF; 0xC0; 0x05; 0x3B]%Z /\
  snd (fst (@send_command additive_checksum []
              (execute_controller position_device)))
  = [0xFF; 0xFF; 0xB0; 0x05; 0x80; 0xCB]%Z.
Proof.
  pose proof (@send_command_frame additive_checksum [] motor5) as T.
  pose proof (@send_command_frame additive_checksum []
                (execute_controller position_device)) as U.
  cbv zeta in T, U.
  destruct T as (_ & T & _).
  destruct U as (_ & _ & U & _).
  split.
  - rewrite T by reflexivity. reflexivity.
  - rewrite U by discriminate. vm_compute. reflexivity.
Defined.

Lemma cutoff_sends_data_request_witness :
  snd (fst (@send_command additive_checksum []
              (execute_controller overturned_device)))
  = [0xFF; 0xFF; 0xC0; 0x05; 0x3B]%Z.
Proof.
  rewrite (@cutoff_sends_data_request additive_checksum [] overturned_device).
  - reflexivity.
  - vm_compute. discriminate.
Defined.

(** X12 on the position device: the frame carries [0.8 * 0.9], sent as
    the saturated payload 128. *)
Lemma commanded_frame_carries_output_witness :
  snd (fst (@send_command additive_checksum []
              (execute_controller position_device)))
  = send_queue
      (com (@enqueue_command_set_voltage additive_checksum
              (output_voltage (data (execute_controller position_device)))
              (execute_controller position_device))).
Proof.
  assert (H : Qabs (position (data position_device))
              < phi_disable position_device) by reflexivity.
  apply (proj1 (@commanded_frame_carries_output additive_checksum []
                  position_device H)).
  left. reflexivity.
Defined.

(** ** Frames through the parser *)

Ltac open_sensorimotor m :=
  destruct m as
    [id [q rc sq sc] rq rs dir d e zz tp tv cm cf lo hi kp ph ss st ct].

(** Call-by-value evaluation of parser calls on a queue whose first
    bytes are known; the loop and the arithmetic on bytes are left
    alone. *)
Ltac eval_parser :=
  cbv -[Qmult Qdiv Qplus inject_Z uint_to_sc to_int16 Z.mul Z.add Z.modulo
        Z.eqb Z.ltb checksum_add checksum_ok checksum_reset checksum_byte
        current_scale voltage_scale settle be_word
        receive_state_data receive_ping_response].

(** The same for the body of a frame case. *)
Ltac eval_frame :=
  cbv -[Qmult Qdiv Qplus inject_Z uint_to_sc to_int16 Z.mul Z.add Z.modulo
        Z.eqb Z.ltb checksum_add checksum_ok checksum_reset checksum_byte
        current_scale voltage_scale settle be_word].

Ltac decide_bytes :=
  rewrite ?Z.eqb_refl;
  repeat match goal with
    | |- context [(?a =? ?b)%Z] =>
        let r := eval compute in (a =? b)%Z in
        match r with
        | true => change (a =? b)%Z with true
        | false => change (a =? b)%Z with false
        end
    end;
  cbv beta iota.

Section FrameProperties.
Context {CA : checksum_algorithm}.

(** The parse of a state-data frame addressed to this device. *)
Lemma state_data_frame_parse (m : sensorimotor)
    (p1 p0 c1 c0 b1 b0 s1 s0 t1 t0 chk : Z) (rest : list Z) :
  syncstate m = sync0 ->
  recv_queue (com m) = [] ->
  let frame := [0xFF; 0xFF; 0x80; motor_id m;
                p1; p0; c1; c0; b1; b0; s1; s0; t1; t0; chk]%Z in
  let m' := while_receive_data (frame ++ rest) m in
  syncstate m' =
    (if checksum_ok (fold_left checksum_add frame checksum_reset)
     then completed else invalid) /\
  position (data m') = uint_to_sc (be_word p1 p0) * inject_Z (direction m) /\
  current (data m') = inject_Z (be_word c1 c0) * current_scale /\
  voltage_backemf (data m') = uint_to_sc (be_word b1 b0) /\
  voltage_supply (data m') = inject_Z (be_word s1 s0) * voltage_scale /\
  temperature (data m') = inject_Z (to_int16 (be_word t1 t0)) / 100 /\
  output_voltage (data m') = output_voltage (data m) /\
  is_responding m' = is_responding m /\
  recv_queue (com m') = rest.
Proof.
  intros Hs Hq. open_sensorimotor m. cbn in Hs, Hq. subst ss q.
  cbv zeta. unfold while_receive_data.
  rewrite settle_step. eval_parser. decide_bytes.
  rewrite settle_step. eval_parser. decide_bytes.
  rewrite settle_step. eval_parser. decide_bytes.
  eval_frame. decide_bytes.
  destruct (checksum_ok _);
    (rewrite quiescent_settle
       by (apply quiescent_switch, terminal_quiescent; reflexivity));
    cbn; repeat split.
Qed.

(** X13.  A state-data frame for this device, read from the start of a
    cycle: the five words are decoded big-endian into position (scaled
    and direction-corrected), current, back-EMF, supply voltage and
    (signed) temperature; the parse ends [completed] exactly when the
    channel's checksum over all fifteen bytes is accepted and [invalid]
    otherwise; [output_voltage] and the liveness flag are not touched;
    whatever follows the frame stays in the queue. *)
Theorem state_data_frame_decodes (m : sensorimotor)
    (p1 p0 c1 c0 b1 b0 s1 s0 t1 t0 chk : Z) (rest : list Z) :
  syncstate m = sync0 ->
  recv_queue (com m) = [] ->
  let frame := [0xFF; 0xFF; 0x80; motor_id m;
                p1; p0; c1; c0; b1; b0; s1; s0; t1; t0; chk]%Z in
  let m' := while_receive_data (frame ++ rest) m in
  syncstate m' =
    (if checksum_ok (fold_left checksum_add frame checksum_reset)
     then completed else invalid) /\
  position (data m') = uint_to_sc (be_word p1 p0) * inject_Z (direction m) /\
  current (data m') = inject_Z (be_word c1 c0) * current_scale /\
  voltage_backemf (data m') = uint_to_sc (be_word b1 b0) /\
  voltage_supply (data m') = inject_Z (be_word s1 s0) * voltage_scale /\
  temperature (data m') = inject_Z (to_int16 (be_word t1 t0)) / 100 /\
  output_voltage (data m') = output_voltage (data m) /\
  is_responding m' = is_responding m /\
  recv_queue (com m') = rest.
Proof.
  exact (state_data_frame_parse m p1 p0 c1 c0 b1 b0 s1 s0 t1 t0 chk rest).
Qed.

(** The parse of a ping response. *)
Lemma ping_response_parse (m : sensorimotor) (mid chk : Z)
    (rest : list Z) :
  syncstate m = sync0 ->
  recv_queue (com m) = [] ->
  let frame := [0xFF; 0xFF; 0xE1; mid; chk]%Z in
  let m' := while_receive_data (frame ++ rest) m in
  let ok := (motor_id m =? mid)%Z
            && checksum_ok (fold_left checksum_add frame checksum_reset) in
  syncstate m' = (if ok then completed else invalid) /\
  is_responding m' = ok /\
  data m' = data m /\
  recv_queue (com m') = rest.
Proof.
  intros Hs Hq. open_sensorimotor m. cbn in Hs, Hq. subst ss q.
  cbv zeta. unfold while_receive_data.
  rewrite settle_step. eval_parser. decide_bytes.
  rewrite settle_step. eval_parser. decide_bytes.
  rewrite settle_step. eval_parser. decide_bytes.
  eval_frame.
  destruct (id =? mid)%Z; [destruct (checksum_ok _)|];
    (rewrite quiescent_settle
       by (apply quiescent_switch, terminal_quiescent; reflexivity));
    cbn; repeat split.
Qed.

(** X14.  A ping response read from the start of a cycle: the parse ends
    [completed] exactly when the id is this device's and the channel
    accepts the checksum over the five bytes, [invalid] otherwise; the
    liveness flag is set to that same outcome; the Device State is not
    touched; whatever follows stays in the queue. *)
Theorem ping_response_decodes (m : sensorimotor) (mid chk : Z)
    (rest : list Z) :
  syncstate m = sync0 ->
  recv_queue (com m) = [] ->
  let frame := [0xFF; 0xFF; 0xE1; mid; chk]%Z in
  let m' := while_receive_data (frame ++ rest) m in
  let ok := (motor_id m =? mid)%Z
            && checksum_ok (fold_left checksum_add frame checksum_reset) in
  syncstate m' = (if ok then completed else invalid) /\
  is_responding m' = ok /\
  data m' = data m /\
  recv_queue (com m') = rest.
Proof.
  exact (ping_response_parse m mid chk rest).
Qed.

Lemma sync0_drops (b : Z) (l : list Z) (m : sensorimotor) :
  syncstate m = sync0 -> recv_queue (com m) = [] -> b <> 0xFF%Z ->
  receive_data_switch (arrive (b :: l) m) = (true, arrive l m).
Proof.
  intros Hs Hq Hb. open_sensorimotor m. cbn in Hs, Hq. subst ss q.
  apply Z.eqb_neq in Hb.
  unfold receive_data_switch, arrive. cbn -[Z.eqb]. rewrite Hb. reflexivity.
Qed.

(** X15.  Bytes other than 0xFF that precede a frame are dropped one by
    one in [sync0] and leave no trace: the loop ends in the same state
    as without them. *)
Theorem noise_before_sync_is_skipped (junk bytes : list Z)
    (m : sensorimotor) :
  syncstate m = sync0 ->
  recv_queue (com m) = [] ->
  Forall (fun b => b <> 0xFF%Z) junk ->
  while_receive_data (junk ++ bytes) m = while_receive_data bytes m.
Proof.
  intros Hs Hq Hj. unfold while_receive_data.
  induction Hj as [|b junk Hb Hj IH]; [reflexivity|].
  cbn [app]. rewrite settle_step.
  rewrite (sync0_drops b (junk ++ bytes) m Hs Hq Hb). exact IH.
Qed.

(** X16.  A state-data frame addressed to another device is given up
    after its id byte: the parse ends [invalid], Device State and
    liveness are as before, and the twelve bytes after the id are left
    unread in the queue. *)
Theorem foreign_state_data_is_dropped (m : sensorimotor) (mid : Z)
    (rest : list Z) :
  syncstate m = sync0 ->
  recv_queue (com m) = [] ->
  mid <> motor_id m ->
  (11 <= length rest)%nat ->
  let m' := while_receive_data ([0xFF; 0xFF; 0x80; mid]%Z ++ rest) m in
  syncstate m' = invalid /\
  data m' = data m /\
  is_responding m' = is_responding m /\
  recv_queue (com m') = rest.
Proof.
  intros Hs Hq Hne Hlen. open_sensorimotor m. cbn in Hs, Hq, Hne.
  subst ss q.
  do 11 (destruct rest as [|? rest]; [cbn in Hlen; lia|]). clear Hlen.
  assert (E1 : (mid =? id)%Z = false) by now apply Z.eqb_neq.
  assert (E2 : (id =? mid)%Z = false) by (rewrite Z.eqb_sym; exact E1).
  cbv zeta. unfold while_receive_data.
  rewrite settle_step. eval_parser. decide_bytes.
  rewrite settle_step. eval_parser. decide_bytes.
  rewrite settle_step. eval_parser. decide_bytes.
  eval_frame. rewrite ?E1, ?E2. cbv beta iota.
  rewrite quiescent_settle
    by (apply quiescent_switch, terminal_quiescent; reflexivity).
  cbn. repeat split.
Qed.

(** X17.  A command byte other than 0x80 and 0xE1 after the sync pair
    ends the parse [invalid] at once; the byte is not consumed and the
    Device State is as before. *)
Theorem unknown_command_is_invalid (m : sensorimotor) (cmd : Z)
    (rest : list Z) :
  syncstate m = sync0 ->
  recv_queue (com m) = [] ->
  cmd <> 0x80%Z -> cmd <> 0xE1%Z ->
  let m' := while_receive_data ([0xFF; 0xFF; cmd]%Z ++ rest) m in
  syncstate m' = invalid /\
  data m' = data m /\
  is_responding m' = is_responding m /\
  recv_queue (com m') = cmd :: rest.
Proof.
  intros Hs Hq H80 HE1. open_sensorimotor m. cbn in Hs, Hq. subst ss q.
  apply Z.eqb_neq in H80, HE1.
  cbv zeta. unfold while_receive_data.
  rewrite settle_step. eval_parser. decide_bytes.
  rewrite settle_step. eval_parser. decide_bytes.
  rewrite settle_step. eval_parser. rewrite H80, HE1. cbv beta iota.
  repeat split.
Qed.
End FrameProperties.

(** X13 on the scenario frame followed by two further bytes. *)
Lemma state_data_frame_decodes_witness :
  let m' := @while_receive_data additive_checksum
              (scenario_frame ++ [0x01; 0x02]%Z) motor5 in
  syncstate m' = completed /\
  current (data m') = inject_Z (be_word 0x00 0x64) * current_scale /\
  recv_queue (com m') = [0x01; 0x02]%Z.
Proof.
  cbv zeta.
  pose proof (@state_data_frame_decodes additive_checksum motor5
                0x02 0x00 0x00 0x64 0x02 0x00 0x00 0x32 0x27 0x10 0xAC
                [0x01; 0x02]%Z eq_refl eq_refl) as T.
  cbv zeta in T. destruct T as (T1 & _ & T3 & _ & _ & _ & _ & _ & T9).
  split; [exact T1|]. split; [exact T3 | exact T9].
Defined.

(** X14 on a ping response from device 5 and on one from device 6. *)
Lemma ping_response_decodes_witness :
  is_responding
    (@while_receive_data additive_checksum
       [0xFF; 0xFF; 0xE1; 0x05; 0x1C]%Z motor5) = true /\
  syncstate
    (@while_receive_data additive_checksum
       [0xFF; 0xFF; 0xE1; 0x06; 0x1B]%Z motor5) = invalid.
Proof.
  pose proof (@ping_response_decodes additive_checksum motor5 0x05 0x1C []
                eq_refl eq_refl) as T.
  pose proof (@ping_response_decodes additive_checksum motor5 0x06 0x1B []
                eq_refl eq_refl) as U.
  cbv zeta in T, U. destruct T as (_ & T & _). destruct U as (U & _).
  split; [exact T | exact U].
Defined.

(** X15: three stray bytes before the scenario frame. *)
Lemma noise_before_sync_is_skipped_witness :
  @while_receive_data additive_checksum
    ([0x00; 0x80; 0x7F]%Z ++ scenario_frame) motor5
  = @while_receive_data additive_checksum scenario_frame motor5.
Proof.
  apply (@noise_before_sync_is_skipped additive_checksum).
  - reflexivity.
  - reflexivity.
  - repeat constructor; discriminate.
Defined.

(** X16: the scenario frame with the id byte of device 6. *)
Lemma foreign_state_data_is_dropped_witness :
  let m' := @while_receive_data additive_checksum
              ([0xFF; 0xFF; 0x80; 0x06]%Z
               ++ [0x02; 0x00; 0x00; 0x64; 0x02; 0x00; 0x00; 0x32; 0x27;
                   0x10; 0xAB]%Z) motor5 in
  syncstate m' = invalid /\ data m' = data motor5 /\
  length (recv_queue (com m')) = 11%nat.
Proof.
  cbv zeta.
  destruct (@foreign_state_data_is_dropped additive_checksum motor5 0x06
              [0x02; 0x00; 0x00; 0x64; 0x02; 0x00; 0x00; 0x32; 0x27;
               0x10; 0xAB]%Z) as (T1 & T2 & _ & T4).
  - reflexivity.
  - reflexivity.
  - discriminate.
  - cbn. lia.
  - split; [exact T1|]. split; [exact T2|]. now rewrite T4.
Defined.

(** X17: the command byte 0x42 after a sync pair. *)
Lemma unknown_command_is_invalid_witness :
  let m' := @while_receive_data additive_checksum
              ([0xFF; 0xFF; 0x42]%Z ++ [0x05; 0x07]%Z) motor5 in
  syncstate m' = invalid /\ recv_queue (com m') = [0x42; 0x05; 0x07]%Z.
Proof.
  cbv zeta.
  destruct (@unknown_command_is_invalid additive_checksum motor5 0x42
              [0x05; 0x07]%Z) as (T1 & _ & _ & T4).
  - reflexivity.
  - reflexivity.
  - discriminate.
  - discriminate.
  - split; [exact T1 | exact T4].
Defined.

(** ** The receive cycle as a whole *)

Section CycleProperties.
Context {CA : checksum_algorithm}.

Local Arguments receive_state_data : simpl never.
Local Arguments receive_ping_response : simpl never.

Lemma switch_controller_side (m m' : sensorimotor) (again : bool) :
  receive_data_switch m = (again, m') ->
  controller_side m' = controller_side m.
Proof.
  intro H. open_sensorimotor m. unfold receive_data_switch in H.
  cbn -[Z.eqb Nat.ltb] in H.
  destruct ss.
  - destruct q as [|b q]; cbn -[Z.eqb Nat.ltb] in H.
    + inversion H; reflexivity.
    + destruct (b =? 255)%Z; inversion H; reflexivity.
  - destruct q as [|b q]; cbn -[Z.eqb Nat.ltb] in H.
    + inversion H; reflexivity.
    + destruct (b =? 255)%Z; inversion H; reflexivity.
  - destruct q as [|b q]; cbn -[Z.eqb Nat.ltb] in H.
    + inversion H; reflexivity.
    + destruct (b =? 128)%Z.
      * destruct (12 <? _)%nat; inversion H; [|reflexivity].
        eval_frame. destruct (_ =? id)%Z; reflexivity.
      * destruct (b =? 225)%Z; [|inversion H; reflexivity].
        destruct (2 <? _)%nat; inversion H; reflexivity.
  - inversion H; reflexivity.
  - inversion H; reflexivity.
Qed.

Lemma drain_controller_side (fuel : nat) :
  forall m : sensorimotor,
    controller_side (drain fuel m) = controller_side m.
Proof.
  induction fuel as [|fuel IH]; intro m; [reflexivity|].
  rewrite drain_S.
  destruct (receive_data_switch m) as [[|] m'] eqn:E.
  - rewrite IH. eapply switch_controller_side; exact E.
  - eapply switch_controller_side; exact E.
Qed.

Lemma receive_loop_controller_side (fuel : nat) :
  forall (t_us timeout_us : Z) (arrivals : list (list Z)) (m : sensorimotor),
    controller_side (snd (receive_loop fuel t_us timeout_us arrivals m))
    = controller_side m.
Proof.
  induction fuel as [|fuel IH]; intros t_us timeout_us arrivals m;
    cbn [receive_loop].
  - cbn [snd]. unfold while_receive_data, settle.
    now rewrite drain_controller_side.
  - destruct (_ && _); [rewrite IH|cbn [snd]];
      unfold while_receive_data, settle; now rewrite drain_controller_side.
Qed.

(** X18.  Receiving never reaches into the controller: a call of
    [receive_data] and a whole [receive_response] cycle leave the
    identity, the configuration, the mode, the targets, the controller
    states, the commanded [output_voltage] and the bytes enqueued for
    sending exactly as they were, whatever bytes arrive. *)
Theorem receiving_keeps_controller_side (m : sensorimotor) :
  (forall incoming : list Z,
     controller_side (snd (receive_data incoming m)) = controller_side m) /\
  (forall (timeout_us : Z) (arrivals : list (list Z)),
     controller_side (snd (receive_response timeout_us arrivals m))
     = controller_side m).
Proof.
  split.
  - intro incoming. unfold receive_data.
    destruct (receive_data_switch (arrive incoming m)) as [again m'] eqn:E.
    cbn [snd]. now rewrite (switch_controller_side _ _ _ E).
  - intros timeout_us arrivals. unfold receive_response.
    pose proof (receive_loop_controller_side (Z.to_nat timeout_us) 0
                  timeout_us arrivals (with_syncstate sync0 m)) as H.
    destruct (receive_loop _ _ _ _ _) as [t_us m']. cbn [snd] in *.
    exact H.
Qed.

Lemma receive_loop_time (fuel : nat) :
  forall (t_us timeout_us : Z) (arrivals : list (list Z)) (m : sensorimotor),
    (0 <= t_us)%Z ->
    (timeout_us <= t_us + Z.of_nat fuel)%Z ->
    (t_us + Z.of_nat fuel + 1 < 2 ^ 32)%Z ->
    let r := receive_loop fuel t_us timeout_us arrivals m in
    (t_us + 1 <= fst r <= Z.max (t_us + 1) timeout_us)%Z /\
    ((fst r < timeout_us)%Z -> is_pending (snd r) = false).
Proof.
  induction fuel as [|fuel IH]; intros t_us timeout_us arrivals m H0 Hf Hw;
    cbv zeta; cbn [receive_loop].
  - rewrite wrap_unsigned_small by lia. cbn [fst snd]. split; lia.
  - rewrite wrap_unsigned_small by lia.
    destruct (Z.ltb_spec (t_us + 1) timeout_us) as [Hlt | Hge];
      cbn [andb].
    + destruct (is_pending (while_receive_data (hd [] arrivals) m)) eqn:Ep.
      * specialize (IH (t_us + 1)%Z timeout_us (tl arrivals)
                       (while_receive_data (hd [] arrivals) m)).
        cbv zeta in IH. destruct IH as [IH1 IH2]; try lia.
        split; [lia | exact IH2].
      * cbn [fst snd]. split; [lia | intros _; exact Ep].
    + cbn [fst snd]. split; lia.
Qed.

(** The number of rounds of a receive cycle and the reported outcome. *)
Lemma receive_response_rounds (timeout_us : Z)
    (arrivals : list (list Z)) (m : sensorimotor) :
  (0 <= timeout_us < 2 ^ 32 - 1)%Z ->
  let st := fst (receive_response timeout_us arrivals m) in
  let m' := snd (receive_response timeout_us arrivals m) in
  statistics m' = st /\
  (1 <= response_time_us st <= Z.max 1 timeout_us)%Z /\
  (faulted st = false <->
   syncstate m' = completed /\ (response_time_us st < timeout_us)%Z) /\
  (is_pending m' = true ->
   response_time_us st = Z.max 1 timeout_us /\ faulted st = true).
Proof.
  intro Ht. cbv zeta. unfold receive_response.
  pose proof (receive_loop_time (Z.to_nat timeout_us) 0 timeout_us arrivals
                (with_syncstate sync0 m)) as L.
  cbv zeta in L.
  destruct (receive_loop _ _ _ _ _) as [t_us k]. cbn [fst snd] in *.
  destruct L as [[L1 L2] L3]; try lia.
  unfold is_pending, is_data_valid in *.
  cbn [syncstate statistics with_statistics update faulted
       response_time_us].
  split; [reflexivity|]. split; [lia|].
  destruct (Z.leb_spec timeout_us t_us) as [Hge | Hlt]; cbn [orb].
  - split.
    + split; [discriminate | intros [_ H]; lia].
    + intros _. split; [lia | reflexivity].
  - specialize (L3 Hlt).
    destruct (syncstate k); cbn in L3 |- *; try discriminate L3.
    + split; [|discriminate].
      split; [intros _; split; [reflexivity | lia] | reflexivity].
    + split; [|discriminate].
      split; [discriminate | intros [H _]; discriminate H].
Qed.

(** X19.  For a timeout below [2^32 - 1], [receive_response] stops after
    between 1 and [max 1 timeout] rounds and stores the snapshot it
    returns.  The cycle is reported as not faulted exactly when a frame
    was validated ([completed]) before the round counter reached the
    timeout; a cycle that ends with the parser still pending has used up
    the timeout and is reported as faulted. *)
Theorem receive_response_outcome (timeout_us : Z)
    (arrivals : list (list Z)) (m : sensorimotor) :
  (0 <= timeout_us < 2 ^ 32 - 1)%Z ->
  let st := fst (receive_response timeout_us arrivals m) in
  let m' := snd (receive_response timeout_us arrivals m) in
  statistics m' = st /\
  (1 <= response_time_us st <= Z.max 1 timeout_us)%Z /\
  (faulted st = false <->
   syncstate m' = completed /\ (response_time_us st < timeout_us)%Z) /\
  (is_pending m' = true ->
   response_time_us st = Z.max 1 timeout_us /\ faulted st = true).
Proof.
  exact (receive_response_rounds timeout_us arrivals m).
Qed.
End CycleProperties.

(** X19 for a silent cycle and for the scenario frame. *)
Lemma receive_response_outcome_witness :
  response_time_us
    (fst (@receive_response additive_checksum 1000 [] motor5)) = 1000%Z /\
  faulted (fst (@receive_response additive_checksum 1000 [] motor5)) = true /\
  faulted (fst (@receive_response additive_checksum 1000 [scenario_frame]
                  motor5)) = false.
Proof.
  assert (Ht : (0 <= 1000 < 2 ^ 32 - 1)%Z) by (cbn; lia).
  pose proof (@receive_response_outcome additive_checksum 1000 [] motor5 Ht)
    as (_ & _ & _ & T).
  pose proof (@receive_response_outcome additive_checksum 1000
                [scenario_frame] motor5 Ht) as (_ & _ & U & _).
  assert (Hp : is_pending
                 (snd (@receive_response additive_checksum 1000 [] motor5))
               = true) by (vm_compute; reflexivity).
  destruct (T Hp) as [T1 T2].
  split; [rewrite T1; reflexivity|]. split; [exact T2|].
  apply U. split; vm_compute; reflexivity.
Defined.

(** ** The statistics over many cycles *)

Lemma wrap_unsigned_bounds (n : Z) :
  (0 <= n)%Z -> (0 <= wrap_unsigned n <= n)%Z.
Proof.
  intro H. unfold wrap_unsigned. split.
  - apply Z.mod_pos_bound. reflexivity.
  - apply Z.mod_le; [exact H | reflexivity].
Qed.

Lemma update_keeps_invariant (st : Statistics_t) (n : Z) (time_us : Z)
    (timeout invalid : bool) :
  (0 <= time_us)%Z ->
  0 <= avg_resp_time_us st <= inject_Z (max_resp_time_us st) ->
  (0 <= response_time_us st <= max_resp_time_us st)%Z ->
  (0 <= errors st <= n)%Z -> (0 <= timeouts st <= n)%Z ->
  let st' := update st time_us timeout invalid in
  0 <= avg_resp_time_us st' <= inject_Z (max_resp_time_us st') /\
  (0 <= response_time_us st' <= max_resp_time_us st')%Z /\
  (max_resp_time_us st <= max_resp_time_us st')%Z /\
  (0 <= errors st' <= n + 1)%Z /\ (0 <= timeouts st' <= n + 1)%Z.
Proof.
  intros Ht [Ha0 Ha1] Hr He Hto. cbv zeta. unfold update. cbn.
  assert (Hq : 0 <= inject_Z time_us).
  { change 0 with (inject_Z 0). now rewrite <- Zle_Qle. }
  split; [|split; [|split; [|split]]].
  - destruct (Z.ltb_spec (max_resp_time_us st) time_us) as [H | H].
    + assert (inject_Z (max_resp_time_us st) <= inject_Z time_us)
        by (rewrite <- Zle_Qle; lia).
      split; lra.
    + assert (inject_Z time_us <= inject_Z (max_resp_time_us st))
        by (rewrite <- Zle_Qle; lia).
      split; lra.
  - destruct (Z.ltb_spec (max_resp_time_us st) time_us); lia.
  - destruct (Z.ltb_spec (max_resp_time_us st) time_us); lia.
  - destruct invalid; [|lia].
    pose proof (wrap_unsigned_bounds (errors st + 1)). lia.
  - destruct timeout; [|lia].
    pose proof (wrap_unsigned_bounds (timeouts st + 1)). lia.
Qed.

(** X20.  Over any sequence of cycles with non-negative elapsed times,
    starting from the zeroed record: the average response time stays
    between 0 and the maximum, the last response time is at most the
    maximum, and neither counter exceeds the number of cycles. *)
Theorem statistics_stay_consistent (cycles : list (Z * bool * bool)) :
  Forall (fun c => (0 <= fst (fst c))%Z) cycles ->
  let st := statistics_after cycles in
  0 <= avg_resp_time_us st <= inject_Z (max_resp_time_us st) /\
  (0 <= response_time_us st <= max_resp_time_us st)%Z /\
  (0 <= errors st <= Z.of_nat (length cycles))%Z /\
  (0 <= timeouts st <= Z.of_nat (length cycles))%Z.
Proof.
  cbv zeta. unfold statistics_after.
  induction cycles as [|c cycles IH] using rev_ind; intro H.
  - unfold Statistics_init.
    cbn [fold_left length avg_resp_time_us max_resp_time_us
         response_time_us errors timeouts].
    change (inject_Z 0) with 0.
    split; [split; lra|]. split; [lia|]. split; cbn; lia.
  - apply Forall_app in H. destruct H as [Hc Hlast].
    inversion Hlast as [|? ? Ht _]; subst.
    destruct (IH Hc) as (Ia & Ir & Ie & Ito).
    rewrite fold_left_app, length_app. cbn [fold_left length].
    pose proof (update_keeps_invariant _ (Z.of_nat (length cycles))
                  (fst (fst c)) (snd (fst c)) (snd c) Ht Ia Ir Ie Ito) as U.
    cbv zeta in U. destruct U as (Ua & Ur & _ & Ue & Uto).
    split; [exact Ua|]. split; [exact Ur|]. split; lia.
Qed.

Lemma statistics_stay_consistent_witness :
  let st := statistics_after
              [(120, false, false); (1000, true, false); (80, false, true)]%Z in
  avg_resp_time_us st <= inject_Z (max_resp_time_us st) /\
  (errors st <= 3)%Z /\ (timeouts st <= 3)%Z.
Proof.
  cbv zeta.
  destruct (statistics_stay_consistent
              [(120, false, false); (1000, true, false); (80, false, true)]%Z)
    as ([_ T1] & _ & [_ T3] & [_ T4]).
  - repeat constructor; cbn; lia.
  - split; [exact T1|]. split; [exact T3 | exact T4].
Defined.

(** ** Ping and the full cycle *)

Section PingProperties.
Context {CA : checksum_algorithm}.

Local Arguments receive_state_data : simpl never.
Local Arguments receive_ping_response : simpl never.

(** The liveness flag is only ever raised together with [completed]. *)
Lemma switch_liveness (m m' : sensorimotor) (again : bool) :
  receive_data_switch m = (again, m') ->
  (is_responding m = true -> syncstate m = completed) ->
  is_responding m' = true -> syncstate m' = completed.
Proof.
  intros H I Hr. open_sensorimotor m. unfold receive_data_switch in H.
  cbn -[Z.eqb Nat.ltb] in H, I.
  assert (Stay : rs = true -> ss = completed) by exact I.
  destruct ss.
  - destruct q as [|b q]; cbn -[Z.eqb Nat.ltb] in H;
      [|destruct (b =? 255)%Z]; inversion H; subst; cbn in Hr;
      discriminate (Stay Hr).
  - destruct q as [|b q]; cbn -[Z.eqb Nat.ltb] in H;
      [|destruct (b =? 255)%Z]; inversion H; subst; cbn in Hr;
      discriminate (Stay Hr).
  - destruct q as [|b q]; cbn -[Z.eqb Nat.ltb] in H.
    + inversion H; subst; cbn in Hr; discriminate (Stay Hr).
    + destruct (b =? 128)%Z.
      * destruct (12 <? _)%nat; inversion H; subst;
          [|cbn in Hr; discriminate (Stay Hr)].
        revert Hr. eval_frame.
        destruct (_ =? id)%Z; intro Hr; discriminate (Stay Hr).
      * destruct (b =? 225)%Z;
          [|inversion H; subst; cbn in Hr; discriminate (Stay Hr)].
        destruct (2 <? _)%nat; inversion H; subst;
          [|cbn in Hr; discriminate (Stay Hr)].
        revert Hr. eval_frame.
        destruct (id =? _)%Z; [destruct (checksum_ok _)|];
          intro Hr; first [reflexivity | discriminate Hr].
  - inversion H; subst. exact (I Hr).
  - inversion H; subst. exact (I Hr).
Qed.

Lemma drain_liveness (fuel : nat) :
  forall m : sensorimotor,
    (is_responding m = true -> syncstate m = completed) ->
    is_responding (drain fuel m) = true ->
    syncstate (drain fuel m) = completed.
Proof.
  induction fuel as [|fuel IH]; intros m I; [exact I|].
  rewrite drain_S.
  destruct (receive_data_switch m) as [[|] m'] eqn:E.
  - apply IH. eapply switch_liveness; eassumption.
  - eapply switch_liveness; eassumption.
Qed.

Lemma receive_loop_liveness (fuel : nat) :
  forall (t_us timeout_us : Z) (arrivals : list (list Z)) (m : sensorimotor),
    (is_responding m = true -> syncstate m = completed) ->
    is_responding (snd (receive_loop fuel t_us timeout_us arrivals m)) = true ->
    syncstate (snd (receive_loop fuel t_us timeout_us arrivals m)) = completed.
Proof.
  induction fuel as [|fuel IH]; intros t_us timeout_us arrivals m I;
    cbn [receive_loop].
  - cbn [snd]. unfold while_receive_data, settle.
    apply drain_liveness. exact I.
  - destruct (_ && _).
    + apply IH. unfold while_receive_data, settle.
      apply drain_liveness. exact I.
    + cbn [snd]. unfold while_receive_data, settle.
      apply drain_liveness. exact I.
Qed.

(** X21.  [ping] sends the ping frame and answers [true] only if the
    receive cycle ended [completed]: the flag it returns is cleared
    first and is raised by nothing but a validated ping response. *)
Theorem ping_is_sound (stale : list Z) (arrivals : list (list Z))
    (m : sensorimotor) :
  snd (fst (ping stale arrivals m)) =
  send_queue (com m) ++
    [0xFF%Z; 0xFF%Z; 0xE0%Z; motor_id m;
     checksum_byte (fold_left checksum_add [0xE0%Z; motor_id m] checksum_reset)]
  /\
  (fst (fst (ping stale arrivals m)) = true ->
   syncstate (snd (ping stale arrivals m)) = completed).
Proof.
  unfold ping. cbn [send_msg].
  match goal with
  | |- context [receive_response ?t ?a ?k] =>
      set (prepared := k);
      pose proof (receive_loop_liveness (Z.to_nat t) 0 t a
                    (with_syncstate sync0 prepared)) as L
  end.
  unfold receive_response.
  destruct (receive_loop _ _ _ _ _) as [t_us k] eqn:E.
  cbn [fst snd] in *. split.
  - unfold enqueue_command_ping. cbn. rewrite <- !app_assoc. reflexivity.
  - intro Hr. apply L; [discriminate | exact Hr].
Qed.

Lemma receive_loop_silent (fuel : nat) :
  forall (t_us timeout_us : Z) (m : sensorimotor),
    recv_queue (com m) = [] ->
    snd (receive_loop fuel t_us timeout_us [] m) = m.
Proof.
  assert (W : forall m, recv_queue (com m) = [] ->
                        while_receive_data [] m = m).
  { intros m Hq. unfold while_receive_data. rewrite arrive_nil.
    apply quiescent_settle, quiescent_switch, empty_quiescent, Hq. }
  induction fuel as [|fuel IH]; intros t_us timeout_us m Hq;
    cbn [receive_loop hd tl]; rewrite (W m Hq).
  - reflexivity.
  - destruct (_ && _); [now apply IH | reflexivity].
Qed.

(** X22.  On a silent channel (nothing readable, nothing arriving)
    [ping] answers [false] and clears the liveness flag, whatever it was
    before. *)
Theorem ping_on_silent_channel (m : sensorimotor) :
  recv_queue (com m) = [] ->
  fst (fst (ping [] [] m)) = false /\
  is_responding (snd (ping [] [] m)) = false.
Proof.
  intro Hq. unfold ping. cbn [send_msg].
  match goal with
  | |- context [receive_response ?t ?a ?k] => set (prepared := k)
  end.
  assert (Hp : recv_queue (com (with_syncstate sync0 prepared)) = []).
  { unfold prepared, enqueue_command_ping. cbn. now rewrite Hq. }
  unfold receive_response.
  pose proof (receive_loop_silent (Z.to_nat ping_timeout_us) 0
                ping_timeout_us (with_syncstate sync0 prepared) Hp) as S.
  destruct (receive_loop _ _ _ _ _) as [t_us k]. cbn [fst snd] in *.
  subst k. split; reflexivity.
Qed.

(** A frame that is complete at the first poll ends the cycle after one
    round. *)
Lemma receive_response_one_round (timeout_us : Z)
    (arrivals : list (list Z)) (m : sensorimotor) :
  let w := while_receive_data (hd [] arrivals) (with_syncstate sync0 m) in
  is_pending w = false ->
  snd (receive_response timeout_us arrivals m) =
  with_statistics
    (update (statistics w) 1 (timeout_us <=? 1)%Z (negb (is_data_valid w))) w.
Proof.
  cbv zeta. intro Hp. unfold receive_response.
  destruct (Z.to_nat timeout_us); cbn [receive_loop]; rewrite ?Hp,
    ?andb_false_r; reflexivity.
Qed.

(** X23.  With nothing stale in the queue, a ping response from this
    device with an accepted checksum that is readable at the first poll
    makes [ping] answer [true]. *)
Theorem ping_is_answered (m : sensorimotor) (chk : Z) (rest : list Z)
    (later : list (list Z)) :
  recv_queue (com m) = [] ->
  checksum_ok
    (fold_left checksum_add [0xFF; 0xFF; 0xE1; motor_id m; chk]%Z
       checksum_reset) = true ->
  fst (fst (ping [] (([0xFF; 0xFF; 0xE1; motor_id m; chk]%Z ++ rest) :: later)
             m)) = true.
Proof.
  intros Hq Hok. unfold ping. cbn [send_msg].
  match goal with
  | |- context [receive_response ?t ?a ?k] => set (prepared := k)
  end.
  assert (Hp : recv_queue (com (with_syncstate sync0 prepared)) = []).
  { unfold prepared, enqueue_command_ping. cbn. now rewrite Hq. }
  pose proof (ping_response_parse (with_syncstate sync0 prepared)
                (motor_id m) chk rest eq_refl Hp) as D.
  cbv zeta in D. destruct D as (Ds & Dr & _).
  change (motor_id (with_syncstate sync0 prepared)) with (motor_id m)
    in Ds, Dr.
  rewrite Z.eqb_refl, Hok in Ds, Dr. cbn [andb] in Ds, Dr.
  pose proof (receive_response_one_round ping_timeout_us
                (([0xFF; 0xFF; 0xE1; motor_id m; chk]%Z ++ rest) :: later)
                prepared) as R.
  cbv zeta in R. cbn [hd] in R.
  assert (Hpend : is_pending
            (while_receive_data
               ([0xFF; 0xFF; 0xE1; motor_id m; chk]%Z ++ rest)
               (with_syncstate sync0 prepared)) = false).
  { unfold is_pending. now rewrite Ds. }
  specialize (R Hpend).
  destruct (receive_response _ _ _) as [st k]. cbn [fst snd] in *.
  subst k. exact Dr.
Qed.
End PingProperties.

Lemma ping_is_sound_witness :
  syncstate
    (snd (@ping additive_checksum []
            [[0xFF; 0xFF; 0xE1; 0x05; 0x1C]%Z] motor5)) = completed.
Proof.
  apply (proj2 (@ping_is_sound additive_checksum []
                  [[0xFF; 0xFF; 0xE1; 0x05; 0x1C]%Z] motor5)).
  vm_compute. reflexivity.
Defined.

Lemma ping_on_silent_channel_witness :
  fst (fst (@ping additive_checksum [] []
              (with_is_responding true motor5))) = false.
Proof.
  apply (proj1 (@ping_on_silent_channel additive_checksum
                  (with_is_responding true motor5) eq_refl)).
Defined.

Lemma ping_is_answered_witness :
  fst (fst (@ping additive_checksum []
              [[0xFF; 0xFF; 0xE1; 0x05; 0x1C; 0x00]%Z; [0x01]%Z] motor5))
  = true.
Proof.
  apply (@ping_is_answered additive_checksum motor5 0x1C [0x00]%Z
           [[0x01]%Z]); reflexivity.
Defined.

Section TimedOutCycle.
Context {CA : checksum_algorithm}.

Local Arguments receive_state_data : simpl never.
Local Arguments receive_ping_response : simpl never.

Lemma switch_keeps_statistics (m m' : sensorimotor) (again : bool) :
  receive_data_switch m = (again, m') -> statistics m' = statistics m.
Proof.
  intro H. open_sensorimotor m. unfold receive_data_switch in H.
  cbn -[Z.eqb Nat.ltb] in H.
  destruct ss.
  - destruct q as [|b q]; cbn -[Z.eqb Nat.ltb] in H.
    + inversion H; reflexivity.
    + destruct (b =? 255)%Z; inversion H; reflexivity.
  - destruct q as [|b q]; cbn -[Z.eqb Nat.ltb] in H.
    + inversion H; reflexivity.
    + destruct (b =? 255)%Z; inversion H; reflexivity.
  - destruct q as [|b q]; cbn -[Z.eqb Nat.ltb] in H.
    + inversion H; reflexivity.
    + destruct (b =? 128)%Z.
      * destruct (12 <? _)%nat; inversion H; [|reflexivity].
        eval_frame. destruct (_ =? id)%Z; reflexivity.
      * destruct (b =? 225)%Z; [|inversion H; reflexivity].
        destruct (2 <? _)%nat; inversion H; reflexivity.
  - inversion H; reflexivity.
  - inversion H; reflexivity.
Qed.

Lemma drain_keeps_statistics (fuel : nat) :
  forall m : sensorimotor, statistics (drain fuel m) = statistics m.
Proof.
  induction fuel as [|fuel IH]; intro m; [reflexivity|].
  rewrite drain_S.
  destruct (receive_data_switch m) as [[|] m'] eqn:E.
  - rewrite IH. eapply switch_keeps_statistics; exact E.
  - eapply switch_keeps_statistics; exact E.
Qed.

Lemma receive_loop_keeps_statistics (fuel : nat) :
  forall (t_us timeout_us : Z) (arrivals : list (list Z)) (m : sensorimotor),
    statistics (snd (receive_loop fuel t_us timeout_us arrivals m))
    = statistics m.
Proof.
  induction fuel as [|fuel IH]; intros t_us timeout_us arrivals m;
    cbn [receive_loop].
  - cbn [snd]. unfold while_receive_data, settle.
    now rewrite drain_keeps_statistics.
  - destruct (_ && _); [rewrite IH|cbn [snd]];
      unfold while_receive_data, settle; now rewrite drain_keeps_statistics.
Qed.

(** X25.  A receive cycle that ends with the parser still pending (no
    complete frame within the timeout) leaves the Device State as it
    was, counts one timeout and no error, and is reported as faulted
    with the timeout as response time. *)
Theorem timed_out_cycle (timeout_us : Z) (arrivals : list (list Z))
    (m : sensorimotor) :
  (1 <= timeout_us < 2 ^ 32 - 1)%Z ->
  let st := fst (receive_response timeout_us arrivals m) in
  let m' := snd (receive_response timeout_us arrivals m) in
  is_pending m' = true ->
  data m' = data m /\
  errors st = errors (statistics m) /\
  timeouts st = wrap_unsigned (timeouts (statistics m) + 1) /\
  response_time_us st = timeout_us /\
  faulted st = true.
Proof.
  intros Ht st m' Hp.
  assert (Hb : (0 <= timeout_us < 2 ^ 32 - 1)%Z) by lia.
  pose proof (receive_response_rounds timeout_us arrivals m Hb) as O.
  cbv zeta in O. destruct O as (_ & _ & _ & O).
  destruct (O Hp) as [Ot Of]. fold st in Ot, Of.
  split; [now apply pending_cycle_keeps_data|].
  rewrite Z.max_r in Ot by lia.
  split; [|split; [|split; [exact Ot | exact Of]]].
  - unfold st, m' in *. unfold receive_response in *.
    pose proof (receive_loop_keeps_statistics (Z.to_nat timeout_us) 0
                  timeout_us arrivals (with_syncstate sync0 m)) as K.
    destruct (receive_loop _ _ _ _ _) as [t_us k]. cbn [fst snd] in *.
    cbn [statistics with_statistics update errors].
    unfold is_pending, is_data_valid in *. cbn [syncstate with_statistics] in Hp.
    apply andb_true_iff in Hp. destruct Hp as [_ Hp].
    rewrite Hp. cbn [negb]. rewrite K. reflexivity.
  - unfold st, m' in *. unfold receive_response in *.
    pose proof (receive_loop_keeps_statistics (Z.to_nat timeout_us) 0
                  timeout_us arrivals (with_syncstate sync0 m)) as K.
    destruct (receive_loop _ _ _ _ _) as [t_us k]. cbn [fst snd] in *.
    cbn [statistics with_statistics update timeouts response_time_us] in *.
    subst t_us. rewrite Z.leb_refl, K. reflexivity.
Qed.
End TimedOutCycle.

(** X25 for a cycle in which only half a frame arrives. *)
Lemma timed_out_cycle_witness :
  let r := @receive_response additive_checksum 1000
             [[0xFF; 0xFF; 0x80; 0x05; 0x03; 0x00]%Z] motor5 in
  data (snd r) = data motor5 /\ timeouts (fst r) = 1%Z /\
  errors (fst r) = 0%Z.
Proof.
  cbv zeta.
  assert (Ht : (1 <= 1000 < 2 ^ 32 - 1)%Z) by (cbn; lia).
  assert (Hp : is_pending
                 (snd (@receive_response additive_checksum 1000
                         [[0xFF; 0xFF; 0x80; 0x05; 0x03; 0x00]%Z] motor5))
               = true) by (vm_compute; reflexivity).
  destruct (@timed_out_cycle additive_checksum 1000
              [[0xFF; 0xFF; 0x80; 0x05; 0x03; 0x00]%Z] motor5 Ht Hp)
    as (T1 & T2 & T3 & _).
  split; [exact T1|]. split; [rewrite T3; reflexivity | rewrite T2; reflexivity].
Defined.

Section CompletedCycle.
Context {CA : checksum_algorithm}.

Lemma settle_keeps_controller (m : sensorimotor) :
  controller (settle m) = controller m.
Proof.
  pose proof (drain_controller_side (S (size (com m))) m) as H.
  unfold controller_side in H. unfold settle. congruence.
Qed.

(** X24.  A whole receive cycle that succeeds.  With nothing stale in
    the queue and a timeout above 1, when the device's state-data frame
    with an accepted checksum is readable at the first poll,
    [receive_response] finishes after one round: the snapshot it returns
    is the stored one, with response time 1, [faulted] cleared and the
    error and timeout counters as before; the parser ends [completed],
    the Device State holds the five decoded values, the commanded
    voltage and the mode are as before, and what followed the frame is
    still readable. *)
Theorem first_poll_frame_completes_cycle (timeout_us : Z) (m : sensorimotor)
    (p1 p0 c1 c0 b1 b0 s1 s0 t1 t0 chk : Z) (rest : list Z)
    (later : list (list Z)) :
  (1 < timeout_us)%Z ->
  recv_queue (com m) = [] ->
  let frame := [0xFF; 0xFF; 0x80; motor_id m;
                p1; p0; c1; c0; b1; b0; s1; s0; t1; t0; chk]%Z in
  checksum_ok (fold_left checksum_add frame checksum_reset) = true ->
  let st := fst (receive_response timeout_us ((frame ++ rest) :: later) m) in
  let m' := snd (receive_response timeout_us ((frame ++ rest) :: later) m) in
  st = statistics m' /\
  response_time_us st = 1%Z /\ faulted st = false /\
  errors st = errors (statistics m) /\
  timeouts st = timeouts (statistics m) /\
  syncstate m' = completed /\
  position (data m')
  = uint_to_sc (be_word p1 p0) * inject_Z (direction m) /\
  current (data m') = inject_Z (be_word c1 c0) * current_scale /\
  voltage_backemf (data m') = uint_to_sc (be_word b1 b0) /\
  voltage_supply (data m') = inject_Z (be_word s1 s0) * voltage_scale /\
  temperature (data m') = inject_Z (to_int16 (be_word t1 t0)) / 100 /\
  output_voltage (data m') = output_voltage (data m) /\
  controller m' = controller m /\
  recv_queue (com m') = rest.
Proof.
  intros Ht Hq frame Hok. cbv zeta.
  pose proof (state_data_frame_parse (with_syncstate sync0 m)
                p1 p0 c1 c0 b1 b0 s1 s0 t1 t0 chk rest eq_refl Hq) as D.
  cbv zeta in D.
  change (motor_id (with_syncstate sync0 m)) with (motor_id m) in D.
  change (direction (with_syncstate sync0 m)) with (direction m) in D.
  change (data (with_syncstate sync0 m)) with (data m) in D.
  fold frame in D. rewrite Hok in D.
  destruct D as (Ds & Dp & Dc & Db & Dv & Dt & Do & _ & Dq).
  pose proof (receive_response_one_round timeout_us
                ((frame ++ rest) :: later) m) as R.
  cbv zeta in R. cbn [hd] in R.
  assert (Hpend : is_pending
            (while_receive_data (frame ++ rest) (with_syncstate sync0 m))
          = false).
  { unfold is_pending. now rewrite Ds. }
  specialize (R Hpend).
  assert (Hst : fst (receive_response timeout_us
                       ((frame ++ rest) :: later) m)
                = statistics (snd (receive_response timeout_us
                                     ((frame ++ rest) :: later) m))).
  { unfold receive_response. destruct (receive_loop _ _ _ _ _).
    reflexivity. }
  assert (Hks : statistics
                  (while_receive_data (frame ++ rest)
                     (with_syncstate sync0 m)) = statistics m).
  { unfold while_receive_data, settle.
    now rewrite drain_keeps_statistics. }
  assert (Hkc : controller
                  (while_receive_data (frame ++ rest)
                     (with_syncstate sync0 m)) = controller m).
  { exact (settle_keeps_controller
             (arrive (frame ++ rest) (with_syncstate sync0 m))). }
  rewrite Hst, R.
  cbn [statistics with_statistics update faulted response_time_us errors
       timeouts syncstate data controller com].
  unfold is_data_valid. rewrite Ds, Hks.
  destruct (Z.leb_spec timeout_us 1) as [Hle | _]; [lia|].
  cbn [negb orb command_state_eqb].
  split; [reflexivity|]. split; [reflexivity|]. split; [reflexivity|].
  split; [reflexivity|]. split; [reflexivity|]. split; [reflexivity|].
  repeat (split; [assumption|]). assumption.
Qed.
End CompletedCycle.

(** X24 on the scenario of the specification: the response to device 5,
    with one byte of the next frame already behind it. *)
Lemma first_poll_frame_completes_cycle_witness :
  let r := @receive_response additive_checksum 1000
             [scenario_frame ++ [0xFF%Z]] motor5 in
  fst r = statistics (snd r) /\ faulted (fst r) = false /\
  response_time_us (fst r) = 1%Z /\ syncstate (snd r) = completed /\
  temperature (data (snd r))
  = inject_Z (to_int16 (be_word 0x27 0x10)) / 100 /\
  recv_queue (com (snd r)) = [0xFF%Z].
Proof.
  cbv zeta.
  assert (Ht : (1 < 1000)%Z) by reflexivity.
  destruct (@first_poll_frame_completes_cycle additive_checksum 1000 motor5
              0x02 0x00 0x00 0x64 0x02 0x00 0x00 0x32 0x27 0x10 0xAC
              [0xFF%Z] [] Ht eq_refl eq_refl)
    as (E & T & F & _ & _ & S & _ & _ & _ & _ & Te & _ & _ & Q).
  split; [exact E|]. split; [exact F|]. split; [exact T|].
  split; [exact S|]. split; [exact Te | exact Q].
Defined.
